(** * md_to_excel.converter: the Markdown table tokenizer and extractor

    A shallow embedding of the parsing functions of
    [src/md_to_excel/converter.py] and the proofs of their contracts.

    A Python [str] is a sequence of Unicode code points: a character is
    modelled as its code point in [N], a string as a list of them.  The
    [print] calls of [parse_markdown_table] are modelled as a list of
    structured messages returned next to the function's result.

    The file has the functions first, as the module writes them, then the
    vocabulary of the specification, then the lemmas on strings, on the
    matcher and on the split, and the contracts of the extractor, the
    tokenizer, the separator test, the normalizer and the annotator. *)

From Stdlib Require Import Ascii String NArith ZArith Bool List Lia.
Import ListNotations.

(** ** Python strings *)

Definition char := N.
Definition str := list char.

Definition chr (a : ascii) : char := N_of_ascii a.

(** The code points of a string literal (used for ASCII literals only). *)
Definition pystr (s : string) : str := map N_of_ascii (list_ascii_of_string s).

(** The empty string. *)
Definition EMPTY : str := [].

Definition PIPE : char := Eval cbv in chr "|".
Definition BACKSLASH : char := Eval cbv in chr "\".
Definition NEWLINE : char := 10%N.
Definition LT : char := Eval cbv in chr "<".
Definition GT : char := Eval cbv in chr ">".
Definition SLASH : char := Eval cbv in chr "/".
Definition DASH : char := Eval cbv in chr "-".
Definition COLON : char := Eval cbv in chr ":".
Definition STAR : char := Eval cbv in chr "*".
Definition UNDERSCORE : char := Eval cbv in chr "_".

(** [str.isspace] on one character, which is also what [\s] matches in a
    [str] pattern: U+0009..U+000D, U+001C..U+0020, U+0085, U+00A0, U+1680,
    U+2000..U+200A, U+2028, U+2029, U+202F, U+205F and U+3000. *)
Definition isspace (c : char) : bool :=
  ((9 <=? c) && (c <=? 13) || (28 <=? c) && (c <=? 32)
   || (c =? 133) || (c =? 160) || (c =? 5760)
   || (8192 <=? c) && (c <=? 8202)
   || (c =? 8232) || (c =? 8233) || (c =? 8239) || (c =? 8287)
   || (c =? 12288))%N.

(** [s.lstrip()], [s.rstrip()] and [s.strip()]. *)
Fixpoint lstrip (s : str) : str :=
  match s with
  | c :: s' => if isspace c then lstrip s' else s
  | [] => []
  end.

Definition rstrip (s : str) : str := rev (lstrip (rev s)).

Definition strip (s : str) : str := rstrip (lstrip s).

(** [s.startswith(p)] and [s.endswith(p)]. *)
Fixpoint startswith (p s : str) : bool :=
  match p, s with
  | [], _ => true
  | a :: p', b :: s' => (a =? b)%N && startswith p' s'
  | _ :: _, [] => false
  end.

Definition endswith (p s : str) : bool := startswith (rev p) (rev s).

(** A slice bound of [s[start:stop]]: a negative index counts from the
    end, and the result is clamped to [0..len]. *)
Definition slice_index (len : nat) (i : Z) : nat :=
  Z.to_nat (Z.min (Z.of_nat len) (Z.max 0 (if (i <? 0)%Z then i + Z.of_nat len else i)))%Z.

(** [s[start:stop]]; empty when the bounds cross. *)
Definition slice (s : str) (start stop : Z) : str :=
  let a := slice_index (length s) start in
  let b := slice_index (length s) stop in
  firstn (b - a) (skipn a s).

(** [s.replace(old, new)] for a non-empty [old]: occurrences are replaced
    left to right and do not overlap.  [skip] counts the characters of an
    occurrence that remain to be dropped. *)
Fixpoint replace_from (old new : str) (skip : nat) (s : str) : str :=
  match s with
  | [] => []
  | c :: s' =>
      match skip with
      | S k => replace_from old new k s'
      | O =>
          if startswith old s
          then new ++ replace_from old new (length old - 1) s'
          else c :: replace_from old new 0 s'
      end
  end.

(** [s.replace(old, new)]; with an empty [old], [new] is put before every
    character and at the end. *)
Definition str_replace (old new s : str) : str :=
  match old with
  | [] => new ++ flat_map (fun c => c :: new) s
  | _ :: _ => replace_from old new 0 s
  end.

(** ** Regular expressions

    The patterns of the module are sequences of character classes, each
    taken once or under [?], [*] or [+] (all greedy).  [run] is a
    backtracking matcher in the order of Python's [re]: a greedy item
    takes as much as it can and gives back one character at a time while
    the rest of the pattern fails.  It returns the length of the match. *)

Inductive quant := One | Opt | Star | Plus.

Definition item := ((char -> bool) * quant)%type.
Definition regex := list item.

Fixpoint star_loop (c : char -> bool) (k : str -> option nat) (s : str) : option nat :=
  match s with
  | x :: s' =>
      if c x then
        match star_loop c k s' with
        | Some n => Some (S n)
        | None => k s
        end
      else k s
  | [] => k s
  end.

Fixpoint run (r : regex) (k : str -> option nat) (s : str) {struct r} : option nat :=
  match r with
  | [] => k s
  | (c, q) :: r' =>
      let k' := run r' k in
      match q with
      | One =>
          match s with
          | x :: s' => if c x then option_map S (k' s') else None
          | [] => None
          end
      | Opt =>
          match s with
          | x :: s' =>
              if c x then
                match k' s' with
                | Some n => Some (S n)
                | None => k' s
                end
              else k' s
          | [] => k' s
          end
      | Star => star_loop c k' s
      | Plus =>
          match s with
          | x :: s' => if c x then option_map S (star_loop c k' s') else None
          | [] => None
          end
      end
  end.

(** [re.match(r, s)]: the length of the match of [r] at the start of [s]. *)
Definition re_match (r : regex) (s : str) : option nat :=
  run r (fun _ => Some 0) s.

(** [re.fullmatch(r, s)], as a truth value. *)
Definition re_fullmatch (r : regex) (s : str) : bool :=
  match run r (fun rest => match rest with [] => Some 0 | _ :: _ => None end) s with
  | Some _ => true
  | None => false
  end.

(** [re.sub(r, repl, s)] for a literal [repl]: at every position, from the
    left, the pattern is tried; a match is replaced and the scan goes on
    after it.  [skip] counts the characters of a match still to be dropped. *)
Fixpoint sub_from (r : regex) (repl : str) (skip : nat) (s : str) : str :=
  match skip with
  | S k =>
      match s with
      | [] => []
      | _ :: s' => sub_from r repl k s'
      end
  | O =>
      match re_match r s with
      | Some (S n) =>
          repl ++ match s with
                  | [] => []
                  | _ :: s' => sub_from r repl n s'
                  end
      | Some O =>
          repl ++ match s with
                  | [] => []
                  | c :: s' => c :: sub_from r repl 0 s'
                  end
      | None =>
          match s with
          | [] => []
          | c :: s' => c :: sub_from r repl 0 s'
          end
      end
  end.

Definition re_sub (r : regex) (repl s : str) : str := sub_from r repl 0 s.

(** Character classes. *)
Definition lit (a : char) : char -> bool := fun x => (x =? a)%N.

(** A letter under [re.IGNORECASE]: its lower and upper case forms
    ([b] and [r] have no other case variant in Unicode). *)
Definition nocase (lower upper : char) : char -> bool :=
  fun x => (x =? lower)%N || (x =? upper)%N.

(** The class [[:\s-]]. *)
Definition sep_class (x : char) : bool :=
  (x =? COLON)%N || isspace x || (x =? DASH)%N.

(** [r'<br\s*/?>'] with [flags=re.IGNORECASE]. *)
Definition BR_PATTERN : regex :=
  [ (lit LT, One);
    (nocase (chr "b") (chr "B"), One);
    (nocase (chr "r") (chr "R"), One);
    (isspace, Star);
    (lit SLASH, Opt);
    (lit GT, One) ].

(** [r'[:\s-]*-+[:\s-]*']. *)
Definition SEP_PATTERN : regex :=
  [ (sep_class, Star); (lit DASH, Plus); (sep_class, Star) ].

(** The pattern [r'(?<!\\)\|'] matches one pipe that no backslash
    precedes; [prev] is the character before the current position, if any. *)
Definition unescaped_pipe (prev : option char) (c : char) : bool :=
  (c =? PIPE)%N &&
  match prev with
  | Some p => negb (p =? BACKSLASH)%N
  | None => true
  end.

(** [re.split(r'(?<!\\)\|', s)]: the pieces of [s] between the matches,
    empty pieces included; the result is never empty. *)
Fixpoint split_from (prev : option char) (s : str) : list str :=
  match s with
  | [] => [[]]
  | c :: s' =>
      if unescaped_pipe prev c then [] :: split_from (Some c) s'
      else
        match split_from (Some c) s' with
        | seg :: segs => (c :: seg) :: segs
        | [] => [[c]]
        end
  end.

Definition split_unescaped_pipes (s : str) : list str := split_from None s.

(** ** The functions of converter.py *)

(** [text.replace('\\|', '|').replace('\\\\', '\\')] *)
Definition unescape_markdown_cell (text : str) : str :=
  str_replace [BACKSLASH; BACKSLASH] [BACKSLASH]
    (str_replace [BACKSLASH; PIPE] [PIPE] text).

Definition preprocess_cell_content (text : option str) : str :=
  match text with
  | None => []
  | Some text =>
      let text := re_sub BR_PATTERN [NEWLINE] text in
      strip text
  end.

Definition parse_markdown_table_line (line : str) : option (list str) :=
  let line := strip line in
  if negb (startswith [PIPE] line) || negb (endswith [PIPE] line) then None
  else
    let inner := slice line 1 (-1) in
    let raw_cells := split_unescaped_pipes inner in
    let preprocessed_cells :=
      map (fun cell => preprocess_cell_content (Some (unescape_markdown_cell (strip cell))))
          raw_cells in
    Some preprocessed_cells.

Definition is_separator_line (line : str) : bool :=
  let line := strip line in
  if negb (startswith [PIPE] line) || negb (endswith [PIPE] line) then false
  else
    let inner := slice line 1 (-1) in
    let cols := map strip (split_unescaped_pipes inner) in
    match cols with
    | [] => false
    | _ :: _ =>
        forallb (fun col => re_fullmatch SEP_PATTERN
                              (match col with [] => [DASH] | _ :: _ => col end))
                cols
    end.

(** The part of an openpyxl [Font] the module sets; every other
    attribute keeps its default. *)
Record Font := mkFont { bold : bool; italic : bool }.

(** [apply_cell_formatting(cell, value)]; [cell] is not used by the body. *)
Definition apply_cell_formatting (value : str) : str * option Font :=
  if startswith [STAR; STAR] value && endswith [STAR; STAR] value
     && (4 <? length value)
  then (strip (slice value 2 (-2)), Some (mkFont true false))
  else if (startswith [STAR] value && endswith [STAR] value
           || startswith [UNDERSCORE] value && endswith [UNDERSCORE] value)
          && (2 <? length value)
  then (strip (slice value 1 (-1)), Some (mkFont false true))
  else (value, None).

(** What [parse_markdown_table] prints, one constructor per [print] call,
    with the values the message is formatted from. *)
Inductive message :=
| MsgProcessing
| MsgFoundSeparator (line_no : nat)
| MsgFoundHeader (line_no : nat) (headers : list str)
| WarnRowWidth (line_no actual expected : nat)
| ErrDataBeforeSeparator (line_no : nat)
| MsgTableEnded (line_no : nat)
| ErrNoHeader
| ErrNoSeparator
| WarnNoDataRows.

Definition is_warning (m : message) : bool :=
  match m with
  | WarnRowWidth _ _ _ | WarnNoDataRows => true
  | _ => false
  end.

Definition is_error (m : message) : bool :=
  match m with
  | ErrDataBeforeSeparator _ | ErrNoHeader | ErrNoSeparator => true
  | _ => false
  end.

(** The local variables of [parse_markdown_table] and the text printed so
    far. *)
Record locals := mkLocals {
  headers : list str;
  data_rows : list (list str);
  header_found : bool;
  separator_found : bool;
  table_found : bool;
  printed : list message
}.

(** The returned tuple [(headers, data_rows, success)] and the output. *)
Record result := mkResult {
  res_headers : list str;
  res_rows : list (list str);
  res_success : bool;
  res_printed : list message
}.

(** How one iteration of the [for] loop ends. *)
Inductive control :=
| Continue (st : locals)
| Break (st : locals)
| Return (r : result).

Definition print (m : message) (st : locals) : locals :=
  mkLocals st.(headers) st.(data_rows) st.(header_found) st.(separator_found)
           st.(table_found) (st.(printed) ++ [m]).

(** The body of [for i, line in enumerate(lines)]. *)
Definition loop_body (i : nat) (line : str) (st : locals) : control :=
  if st.(header_found) && negb st.(separator_found) && is_separator_line line
  then
    Continue (print (MsgFoundSeparator (i + 1))
                (mkLocals st.(headers) st.(data_rows) st.(header_found) true
                          st.(table_found) st.(printed)))
  else
    match parse_markdown_table_line line with
    | Some parsed_cols =>
        if negb st.(header_found) then
          Continue (print (MsgFoundHeader (i + 1) parsed_cols)
                      (mkLocals parsed_cols st.(data_rows) true st.(separator_found)
                                true st.(printed)))
        else if st.(separator_found) then
          let st :=
            if negb (length parsed_cols =? length st.(headers))
            then print (WarnRowWidth (i + 1) (length parsed_cols) (length st.(headers))) st
            else st in
          Continue (mkLocals st.(headers) (st.(data_rows) ++ [parsed_cols])
                             st.(header_found) st.(separator_found)
                             st.(table_found) st.(printed))
        else if st.(header_found) && negb st.(separator_found) then
          let st := print (ErrDataBeforeSeparator (i + 1)) st in
          Return (mkResult st.(headers) st.(data_rows) false st.(printed))
        else Continue st
    | None =>
        if st.(table_found) && st.(separator_found)
        then Break (print (MsgTableEnded i) st)
        else Continue st
    end.

(** The [for] loop from line index [i] on: the locals when it ends or
    breaks, or the result it returns early. *)
Fixpoint scan (i : nat) (lines : list str) (st : locals) : locals + result :=
  match lines with
  | [] => inl st
  | line :: rest =>
      match loop_body i line st with
      | Continue st' => scan (S i) rest st'
      | Break st' => inl st'
      | Return r => inr r
      end
  end.

(** The code after the loop: "Validate table structure". *)
Definition validate (st : locals) : result :=
  if negb st.(header_found) then
    let st := print ErrNoHeader st in
    mkResult st.(headers) st.(data_rows) false st.(printed)
  else if negb st.(separator_found) then
    let st := print ErrNoSeparator st in
    mkResult st.(headers) st.(data_rows) false st.(printed)
  else
    let st := match st.(data_rows) with
              | [] => print WarnNoDataRows st
              | _ :: _ => st
              end in
    mkResult st.(headers) st.(data_rows) true st.(printed).

Definition initial : locals := mkLocals [] [] false false false [MsgProcessing].

Definition parse_markdown_table (lines : list str) : result :=
  match scan 0 lines initial with
  | inl st => validate st
  | inr r => r
  end.

(** ** Specification vocabulary *)

(** *** Strings *)

(** Whitespace all along a string. *)
Definition all_space (s : str) : Prop := Forall (fun c => isspace c = true) s.

(** A string that neither starts nor ends with whitespace. *)
Definition no_outer_space (t : str) : Prop :=
  (forall c r, t = c :: r -> isspace c = false) /\
  (forall c r, t = r ++ [c] -> isspace c = false).

(** [t] is [s] without its leading and trailing whitespace. *)
Definition trimmed (s t : str) : Prop :=
  exists l r, s = l ++ t ++ r /\ all_space l /\ all_space r /\ no_outer_space t.

(** *** Line-break tags and the separator pattern *)

(** An HTML line-break tag as the normalizer's pattern takes it: [<],
    the letters [b] and [r] in either case, any whitespace, an optional
    slash, [>]. *)
Inductive br_tag : str -> Prop :=
| br_tag_intro (b r : char) (ws slash : str) :
    b = chr "b" \/ b = chr "B" ->
    r = chr "r" \/ r = chr "R" ->
    all_space ws ->
    slash = [] \/ slash = [SLASH] ->
    br_tag (LT :: b :: r :: ws ++ slash ++ [GT]).

(** No line-break tag starts at the head of [s]. *)
Definition no_tag_at (s : str) : Prop :=
  forall t rest, s = t ++ rest -> ~ br_tag t.

(** No line-break tag occurs in [s]. *)
Definition no_br_tag (s : str) : Prop :=
  forall a t b, s = a ++ t ++ b -> ~ br_tag t.

(** [out] is [s] with every line-break tag, from the left, replaced by
    one newline character and every other character kept. *)
Inductive br_subst : str -> str -> Prop :=
| br_subst_nil : br_subst [] []
| br_subst_tag (t rest out : str) :
    br_tag t -> br_subst rest out ->
    br_subst (t ++ rest) (NEWLINE :: out)
| br_subst_char (c : char) (rest out : str) :
    no_tag_at (c :: rest) -> br_subst rest out ->
    br_subst (c :: rest) (c :: out).

(** The end of the line-break pattern, [/?>]. *)
Definition br_tail : str -> option nat :=
  run [(lit SLASH, Opt); (lit GT, One)] (fun _ => Some 0).

(** The separator pattern, in words: characters of colon, whitespace and
    dash, then at least one dash, then characters of colon, whitespace and
    dash. *)
Definition sep_shape (t : str) : Prop :=
  exists a b c,
    t = a ++ b ++ c /\
    Forall (fun x => sep_class x = true) a /\
    b <> [] /\ Forall (fun x => x = DASH) b /\
    Forall (fun x => sep_class x = true) c.

(** *** Rows and their pieces *)

(** A line the tokenizer takes for a row: it starts and ends with a pipe. *)
Definition pipe_delimited (t : str) : Prop :=
  (exists r, t = PIPE :: r) /\ (exists r, t = r ++ [PIPE]).

(** [inner] is [t] without its outer pipes; the one-character line ["|"]
    has a single pipe, which is both. *)
Definition outer_pipes_stripped (t inner : str) : Prop :=
  (t = [PIPE] /\ inner = []) \/ t = PIPE :: inner ++ [PIPE].

(** ['|'.join(segs)] *)
Fixpoint join_pipes (segs : list str) : str :=
  match segs with
  | [] => []
  | seg :: rest =>
      match rest with
      | [] => seg
      | _ :: _ => seg ++ PIPE :: join_pipes rest
      end
  end.

Definition ends_with_backslash (seg : str) : Prop :=
  exists a, seg = a ++ [BACKSLASH].

(** Every pipe of [seg] comes immediately after a backslash. *)
Definition pipes_escaped (seg : str) : Prop :=
  forall a b, seg = a ++ PIPE :: b -> ends_with_backslash a.

(** [segs] are the pieces of [s] between its unescaped pipes: joined by
    pipes they give [s] back, no piece holds an unescaped pipe, and the
    pipe after each piece but the last is unescaped. *)
Definition split_at_unescaped_pipes (s : str) (segs : list str) : Prop :=
  segs <> [] /\
  join_pipes segs = s /\
  Forall pipes_escaped segs /\
  Forall (fun seg => ~ ends_with_backslash seg) (removelast segs).

(** The same for a string that comes after the character [prev]: the
    first piece starts in the context of [prev]. *)
Definition escaped_after (prev : option char) (seg : str) : Prop :=
  forall a b, seg = a ++ PIPE :: b ->
    (a = [] /\ prev = Some BACKSLASH) \/ ends_with_backslash a.

Definition backslash_before_end (prev : option char) (seg : str) : Prop :=
  (seg = [] /\ prev = Some BACKSLASH) \/ ends_with_backslash seg.

Definition split_after (prev : option char) (s : str) (seg : str) (segs : list str) : Prop :=
  join_pipes (seg :: segs) = s /\
  escaped_after prev seg /\
  Forall pipes_escaped segs /\
  (segs <> [] -> ~ backslash_before_end prev seg) /\
  Forall (fun seg => ~ ends_with_backslash seg) (removelast segs).

(** *** The table *)

(** A line the Row Tokenizer classifies as "not a row". *)
Definition not_row (line : str) : Prop := parse_markdown_table_line line = None.

(** A pipe-delimited row and its cells. *)
Definition row_cells (line : str) (cells : list str) : Prop :=
  parse_markdown_table_line line = Some cells.

(** The cells of the rows at the head of [lines], up to the first line
    that is not a row. *)
Fixpoint leading_rows (lines : list str) : list (list str) :=
  match lines with
  | [] => []
  | line :: rest =>
      match parse_markdown_table_line line with
      | Some cells => cells :: leading_rows rest
      | None => []
      end
  end.

(** The cells of the first line that is a row; none when no line is. *)
Fixpoint first_row_cells (lines : list str) : list str :=
  match lines with
  | [] => []
  | line :: rest =>
      match parse_markdown_table_line line with
      | Some cells => cells
      | None => first_row_cells rest
      end
  end.

(** What is printed while the data rows are read: a warning for every row
    whose width is not [expected], and the end of the table. *)
Fixpoint row_messages (i expected : nat) (lines : list str) : list message :=
  match lines with
  | [] => []
  | line :: rest =>
      match parse_markdown_table_line line with
      | Some cells =>
          (if negb (length cells =? expected)
           then [WarnRowWidth (i + 1) (length cells) expected] else [])
          ++ row_messages (S i) expected rest
      | None => [MsgTableEnded i]
      end
  end.

(** The three ways an extraction fails. *)
Definition no_header_found (lines : list str) : Prop :=
  Forall not_row lines.

Definition no_separator_found (lines : list str) : Prop :=
  exists pre h cells mid,
    lines = pre ++ h :: mid /\
    Forall not_row pre /\ row_cells h cells /\ Forall not_row mid.

(** A second row, on line [n] (counted from 1), after the header and
    before any separator. *)
Definition row_before_separator (lines : list str) (n : nat) : Prop :=
  exists pre h hcells mid r rcells rest,
    lines = pre ++ h :: mid ++ r :: rest /\
    Forall not_row pre /\ row_cells h hcells /\ Forall not_row mid /\
    row_cells r rcells /\ is_separator_line r = false /\
    n = length pre + length mid + 2.

(** A header, later a separator, and whatever follows. *)
Definition header_then_separator (lines : list str) : Prop :=
  exists pre h hcells mid sep rest,
    lines = pre ++ h :: mid ++ sep :: rest /\
    Forall not_row pre /\ row_cells h hcells /\ Forall not_row mid /\
    is_separator_line sep = true.

(** The extraction, case by case: what [parse_markdown_table] returns and
    prints for each of the four shapes an input can have. *)
Inductive extracts : list str -> result -> Prop :=
| extracts_no_header lines :
    no_header_found lines ->
    extracts lines (mkResult [] [] false [MsgProcessing; ErrNoHeader])
| extracts_no_separator pre h cells mid :
    Forall not_row pre -> row_cells h cells -> Forall not_row mid ->
    extracts (pre ++ h :: mid)
      (mkResult cells [] false
         [MsgProcessing; MsgFoundHeader (length pre + 1) cells; ErrNoSeparator])
| extracts_row_before_separator pre h hcells mid r rcells rest :
    Forall not_row pre -> row_cells h hcells -> Forall not_row mid ->
    row_cells r rcells -> is_separator_line r = false ->
    extracts (pre ++ h :: mid ++ r :: rest)
      (mkResult hcells [] false
         [MsgProcessing; MsgFoundHeader (length pre + 1) hcells;
          ErrDataBeforeSeparator (length pre + length mid + 2)])
| extracts_table pre h hcells mid sep rest :
    Forall not_row pre -> row_cells h hcells -> Forall not_row mid ->
    is_separator_line sep = true ->
    extracts (pre ++ h :: mid ++ sep :: rest)
      (mkResult hcells (leading_rows rest) true
         ([MsgProcessing; MsgFoundHeader (length pre + 1) hcells;
           MsgFoundSeparator (length pre + length mid + 2)]
          ++ row_messages (length pre + length mid + 2) (length hcells) rest
          ++ match leading_rows rest with
             | [] => [WarnNoDataRows]
             | _ :: _ => []
             end)).

(** *** Styled text *)

(** The marker tests of the Formatting Annotator. *)
Definition bold_marked (value : str) : Prop :=
  startswith [STAR; STAR] value = true /\
  endswith [STAR; STAR] value = true /\ 4 < length value.

Definition italic_marked (value : str) : Prop :=
  (startswith [STAR] value = true /\ endswith [STAR] value = true \/
   startswith [UNDERSCORE] value = true /\ endswith [UNDERSCORE] value = true) /\
  2 < length value.

Definition BOLD : Font := mkFont true false.
Definition ITALIC : Font := mkFont false true.

(** *** The inputs of the examples *)

Definition table_lines : list str :=
  map pystr ["| H1 | H2 |"; "|---|---|"; "| a | b |"; "| c | d |"]%string.

Definition data_before_separator_lines : list str :=
  map pystr ["| H1 | H2 |"; "| a | b |"; "|---|---|"]%string.

Definition wide_row_lines : list str :=
  map pystr ["| H1 |"; "|---|"; "| a | b |"]%string.

Definition dash_header_lines : list str :=
  map pystr ["|---|"; "|---|"; "| a |"]%string.

(** *** Writing a row *)

Definition SPACE : char := 32%N.

(** The escaping the unescaper reverses: a backslash before every
    backslash and every pipe. *)
Definition escape_char (c : char) : str :=
  if (c =? BACKSLASH)%N then [BACKSLASH; BACKSLASH]
  else if (c =? PIPE)%N then [BACKSLASH; PIPE]
  else [c].

Definition escape_cell (s : str) : str := flat_map escape_char s.

(** A cell as written in a row: escaped, with a space on either side. *)
Definition padded_cell (s : str) : str := SPACE :: escape_cell s ++ [SPACE].

(** A row of a Markdown table for the given cells. *)
Definition render_row (cells : list str) : str :=
  PIPE :: join_pipes (map padded_cell cells) ++ [PIPE].

(** A line with whitespace added at its ends. *)
Definition padded (line line' : str) : Prop :=
  exists l r, line' = l ++ line ++ r /\ all_space l /\ all_space r.

(** *** The scan *)

(** The table part of a result: all but what was printed. *)
Definition same_table (r1 r2 : result) : Prop :=
  res_headers r1 = res_headers r2 /\
  res_rows r1 = res_rows r2 /\
  res_success r1 = res_success r2.

(** How the flags and the lists of the scan go together. *)
Definition consistent (st : locals) : Prop :=
  table_found st = header_found st /\
  (separator_found st = true -> header_found st = true) /\
  (header_found st = false -> headers st = []) /\
  (separator_found st = false -> data_rows st = []).

(** A cell made of the characters of a separator, with a dash. *)
Definition dash_cell (t : str) : Prop :=
  Forall (fun x => sep_class x = true) t /\ In DASH t.

(** A string with every backslash doubled: what the first replacement of
    the unescaper leaves of an escaped string. *)
Definition double_backslashes (s : str) : str :=
  flat_map (fun c => if (c =? BACKSLASH)%N then [BACKSLASH; BACKSLASH] else [c]) s.

(** A cell text the tokenizer returns as it is: no whitespace at its
    ends and no line-break tag. *)
Definition plain_cell (c : str) : Prop := no_outer_space c /\ no_br_tag c.

(** A test for [no_outer_space]. *)
Definition no_outer_space_b (t : str) : bool :=
  match t with
  | [] => true
  | c :: _ => negb (isspace c) && negb (isspace (last t c))
  end.

(** A table as a writer would put it: the header row, a dash row, the
    data rows. *)
Definition render_table (header : list str) (rows : list (list str)) : list str :=
  render_row header :: pystr "|---|" :: map render_row rows.

(** A text without pipe, backslash, [<] and whitespace. *)
Definition simple_text (s : str) : Prop :=
  Forall (fun c => c <> PIPE /\ c <> BACKSLASH /\ c <> LT /\ isspace c = false) s.

(** ** Python strings: lemmas *)

Section Strings.

Lemma startswith_spec p : forall s,
  startswith p s = true <-> exists r, s = p ++ r.
Proof.
  induction p as [|a p IH]; intros s; simpl.
  - split; eauto.
  - destruct s as [|b s]; simpl.
    + split; [discriminate | intros [r H]; discriminate].
    + rewrite andb_true_iff, N.eqb_eq, IH. split.
      * intros [-> [r ->]]. eauto.
      * intros [r H]. injection H as -> ->. eauto.
Qed.

Lemma endswith_spec p s :
  endswith p s = true <-> exists r, s = r ++ p.
Proof.
  unfold endswith. rewrite startswith_spec. split; intros [r H].
  - exists (rev r). apply (f_equal (@rev char)) in H.
    now rewrite rev_involutive, rev_app_distr, rev_involutive in H.
  - exists (rev r). subst. now rewrite rev_app_distr.
Qed.

(** [(a + m + b)[len(a):-len(b)] == m] for a non-empty [b]. *)
Lemma slice_middle (a m b : str) :
  b <> [] ->
  slice (a ++ m ++ b) (Z.of_nat (length a)) (- Z.of_nat (length b)) = m.
Proof.
  intros Hb. unfold slice, slice_index.
  assert (0 < length b) by (destruct b; simpl; [congruence | lia]).
  rewrite !length_app.
  destruct (Z.ltb_spec (Z.of_nat (length a)) 0); [lia|].
  destruct (Z.ltb_spec (- Z.of_nat (length b)) 0); [|lia].
  replace (Z.to_nat (Z.min _ (Z.max 0 (Z.of_nat (length a))))) with (length a) by lia.
  replace (Z.to_nat (Z.min _ (Z.max 0 (- Z.of_nat (length b) + _))))
    with (length a + length m) by lia.
  rewrite skipn_app, skipn_all, Nat.sub_diag. simpl.
  replace (length a + length m - length a) with (length m + 0) by lia.
  now rewrite firstn_app_2, firstn_O, app_nil_r.
Qed.

(** [x[1:-1]] of a one-character string is empty. *)
Lemma slice_single (c : char) : slice [c] 1 (-1) = [].
Proof. reflexivity. Qed.

Lemma lstrip_spec s :
  exists l, s = l ++ lstrip s /\ all_space l /\
            forall c r, lstrip s = c :: r -> isspace c = false.
Proof.
  induction s as [|x s (l & E & Hl & Hf)]; simpl.
  - exists []. repeat split; [constructor | discriminate].
  - destruct (isspace x) eqn:Ex.
    + exists (x :: l). repeat split.
      * simpl. now f_equal.
      * now constructor.
      * exact Hf.
    + exists []. repeat split; [constructor |].
      intros c r H. now injection H as <- _.
Qed.

Lemma rstrip_spec s :
  exists r, s = rstrip s ++ r /\ all_space r /\
            forall c t, rstrip s = t ++ [c] -> isspace c = false.
Proof.
  unfold rstrip. destruct (lstrip_spec (rev s)) as (l & E & Hl & Hf).
  exists (rev l). repeat split.
  - apply (f_equal (@rev char)) in E.
    now rewrite rev_involutive, rev_app_distr in E.
  - unfold all_space in *. apply Forall_forall. intros c Hc.
    rewrite <- in_rev in Hc. now apply (proj1 (Forall_forall _ _) Hl).
  - intros c t H. apply (Hf c (rev t)).
    apply (f_equal (@rev char)) in H.
    now rewrite rev_involutive, rev_app_distr in H.
Qed.

(** [strip] removes the whitespace at both ends and nothing else. *)
Lemma strip_spec s : trimmed s (strip s).
Proof.
  unfold strip.
  destruct (lstrip_spec s) as (l & El & Hl & Hfl).
  destruct (rstrip_spec (lstrip s)) as (r & Er & Hr & Hfr).
  exists l, r. repeat split; try assumption.
  - now rewrite <- Er.
  - intros c t Ht. rewrite Ht in Er. simpl in Er. now apply (Hfl c (t ++ r)).
Qed.

Lemma lstrip_incl s : incl (lstrip s) s.
Proof.
  destruct (lstrip_spec s) as (l & E & _).
  intros c Hc. rewrite E. apply in_or_app. now right.
Qed.

Lemma strip_incl s : incl (strip s) s.
Proof.
  intros c Hc. apply lstrip_incl. unfold strip in Hc.
  destruct (rstrip_spec (lstrip s)) as (r & E & _).
  rewrite E. apply in_or_app. now left.
Qed.

(** A string without the first character of [old] has no occurrence of
    [old] to replace. *)
Lemma str_replace_absent a old new s :
  ~ In a s -> str_replace (a :: old) new s = s.
Proof.
  unfold str_replace. induction s as [|c s IH]; intros H; simpl.
  - reflexivity.
  - destruct (N.eqb_spec a c) as [->|Hne].
    + exfalso. apply H. now left.
    + simpl. f_equal. apply IH. intros Hin. apply H. now right.
Qed.

End Strings.
(** ** The matcher and the patterns *)

Section Regex.

(** A successful [*] took some characters of the class and the rest of
    the pattern matched what follows. *)
Lemma star_loop_some c k : forall s n,
  star_loop c k s = Some n ->
  exists a b m,
    s = a ++ b /\ Forall (fun x => c x = true) a /\
    k b = Some m /\ n = length a + m.
Proof.
  induction s as [|x s IH]; intros n H; simpl in H.
  - exists [], [], n. auto.
  - destruct (c x) eqn:Ex.
    + destruct (star_loop c k s) as [n'|] eqn:E.
      * injection H as <-.
        destruct (IH _ eq_refl) as (a & b & m & -> & Ha & Hk & ->).
        exists (x :: a), b, m. repeat split; auto.
      * exists [], (x :: s), n. auto.
    + exists [], (x :: s), n. auto.
Qed.

(** A failed [*] has tried every way to cut the input: backtracking is
    complete. *)
Lemma star_loop_none c k : forall s,
  star_loop c k s = None ->
  forall a b, s = a ++ b -> Forall (fun x => c x = true) a -> k b = None.
Proof.
  induction s as [|x s IH]; intros H a b E Ha; simpl in H.
  - destruct a; [|discriminate]. simpl in E. now subst.
  - destruct a as [|y a]; simpl in E.
    + subst b. destruct (c x); [destruct (star_loop c k s); [discriminate|]|];
        assumption.
    + injection E as <- ->. inversion Ha as [|? ? Hx Ha']; subst.
      rewrite Hx in H.
      destruct (star_loop c k (a ++ b)) eqn:E'; [discriminate|].
      eapply IH; eauto.
Qed.

Lemma br_tail_some s n :
  br_tail s = Some n ->
  exists slash rest,
    s = slash ++ GT :: rest /\ (slash = [] \/ slash = [SLASH]) /\
    n = length slash + 1.
Proof.
  unfold br_tail, lit. simpl. destruct s as [|x s]; [discriminate|].
  destruct (N.eqb_spec x SLASH) as [->|Hx].
  - destruct s as [|y s]; simpl.
    + discriminate.
    + destruct (N.eqb_spec y GT) as [->|Hy]; simpl.
      * intros H. injection H as <-. exists [SLASH], s. auto.
      * discriminate.
  - destruct (N.eqb_spec x GT) as [->|Hx']; simpl.
    + intros H. injection H as <-. exists [], s. auto.
    + discriminate.
Qed.

Lemma br_tail_complete slash rest :
  slash = [] \/ slash = [SLASH] ->
  br_tail (slash ++ GT :: rest) = Some (length slash + 1).
Proof. intros [-> | ->]; reflexivity. Qed.

Lemma br_tail_space x s : isspace x = true -> br_tail (x :: s) = None.
Proof.
  intros Hx. unfold br_tail, lit. simpl.
  destruct (N.eqb_spec x SLASH) as [->|_]; [discriminate|].
  destruct (N.eqb_spec x GT) as [->|_]; [discriminate|]. reflexivity.
Qed.

Lemma re_match_br_unfold x1 x2 x3 s :
  re_match BR_PATTERN (x1 :: x2 :: x3 :: s)
  = if lit LT x1 then
      if nocase (chr "b") (chr "B") x2 then
        if nocase (chr "r") (chr "R") x3 then
          option_map (fun n => S (S (S n))) (star_loop isspace br_tail s)
        else None
      else None
    else None.
Proof.
  unfold re_match, BR_PATTERN, br_tail. cbn [run].
  destruct (lit LT x1); [|reflexivity].
  destruct (nocase _ _ x2); [|reflexivity].
  destruct (nocase _ _ x3); [|reflexivity].
  cbn [option_map].
  destruct (star_loop _ _ s); reflexivity.
Qed.

Lemma nocase_spec lo up x :
  nocase lo up x = true <-> x = lo \/ x = up.
Proof.
  unfold nocase. now rewrite orb_true_iff, !N.eqb_eq.
Qed.

(** What the matcher accepts at the head of a string is a line-break tag. *)
Lemma re_match_br_sound s n :
  re_match BR_PATTERN s = Some n ->
  exists t rest, s = t ++ rest /\ br_tag t /\ length t = n.
Proof.
  destruct s as [|x1 [|x2 [|x3 s]]]; try discriminate.
  - unfold re_match; simpl. destruct (lit LT x1); discriminate.
  - unfold re_match; simpl. destruct (lit LT x1); [|discriminate].
    destruct (nocase _ _ x2); discriminate.
  - rewrite re_match_br_unfold.
    destruct (lit LT x1) eqn:E1; [|discriminate].
    destruct (nocase _ _ x2) eqn:E2; [|discriminate].
    destruct (nocase _ _ x3) eqn:E3; [|discriminate].
    destruct (star_loop isspace br_tail s) as [m|] eqn:E; [|discriminate].
    simpl. intros H. injection H as <-.
    apply N.eqb_eq in E1. apply nocase_spec in E2, E3.
    apply star_loop_some in E. destruct E as (ws & u & k & -> & Hws & Hk & ->).
    apply br_tail_some in Hk. destruct Hk as (slash & rest & -> & Hs & ->).
    exists (x1 :: x2 :: x3 :: ws ++ slash ++ [GT]), rest. subst x1. split; [|split].
    + simpl. now rewrite <- !app_assoc.
    + now constructor.
    + simpl. rewrite !length_app. simpl. lia.
Qed.

Lemma star_space_tail ws : forall slash rest,
  all_space ws -> slash = [] \/ slash = [SLASH] ->
  star_loop isspace br_tail (ws ++ slash ++ GT :: rest)
  = Some (length ws + (length slash + 1)).
Proof.
  induction ws as [|x ws IH]; intros slash rest Hws Hs.
  - simpl. destruct Hs as [-> | ->]; reflexivity.
  - inversion Hws as [|? ? Hx Hws']; subst. simpl.
    rewrite Hx, IH by assumption. reflexivity.
Qed.

(** The matcher accepts every line-break tag, with its whole length. *)
Lemma re_match_br_complete t rest :
  br_tag t -> re_match BR_PATTERN (t ++ rest) = Some (length t).
Proof.
  intros [b r ws slash Hb Hr Hws Hs]. simpl app.
  rewrite re_match_br_unfold.
  replace (lit LT LT) with true by reflexivity.
  rewrite (proj2 (nocase_spec _ _ _) Hb), (proj2 (nocase_spec _ _ _) Hr).
  rewrite <- !app_assoc. simpl app.
  rewrite star_space_tail by assumption. simpl.
  rewrite !length_app. simpl. reflexivity.
Qed.

Lemma re_match_br_none s :
  re_match BR_PATTERN s = None -> no_tag_at s.
Proof.
  intros H t rest -> Ht.
  rewrite (re_match_br_complete _ rest Ht) in H. discriminate.
Qed.

(** A tag has at least four characters. *)
Lemma br_tag_length t : br_tag t -> 4 <= length t.
Proof.
  intros [b r ws slash _ _ _ _]. simpl. rewrite !length_app. simpl. lia.
Qed.

(** The skip counter of [sub_from] drops that many characters. *)
Lemma sub_from_skip r repl : forall n s,
  n <= length s -> sub_from r repl n s = sub_from r repl 0 (skipn n s).
Proof.
  induction n as [|n IH]; intros s Hn.
  - reflexivity.
  - destruct s as [|c s]; simpl in Hn; [lia|].
    simpl. apply IH. lia.
Qed.

Lemma re_sub_nil r repl :
  re_match r [] = None -> re_sub r repl [] = [].
Proof. unfold re_sub; simpl. now intros ->. Qed.

Lemma re_sub_no_match r repl c s :
  re_match r (c :: s) = None ->
  re_sub r repl (c :: s) = c :: re_sub r repl s.
Proof. unfold re_sub; simpl. now intros ->. Qed.

Lemma re_sub_match r repl t rest :
  t <> [] -> re_match r (t ++ rest) = Some (length t) ->
  re_sub r repl (t ++ rest) = repl ++ re_sub r repl rest.
Proof.
  intros Ht H. destruct t as [|c t]; [congruence|].
  unfold re_sub. simpl app in *. simpl sub_from. rewrite H. simpl length.
  apply (f_equal (app repl)).
  rewrite (sub_from_skip r repl (length t)) by (rewrite length_app; lia).
  now rewrite skipn_app, skipn_all, Nat.sub_diag.
Qed.

(** [re.sub] with the line-break pattern replaces every tag, from the
    left, by the replacement and keeps the rest. *)
Lemma re_sub_br_subst s : br_subst s (re_sub BR_PATTERN [NEWLINE] s).
Proof.
  remember (length s) as n eqn:Hn.
  revert s Hn. induction n as [n IH] using lt_wf_ind. intros s Hn.
  destruct s as [|c s].
  - rewrite re_sub_nil by reflexivity. constructor.
  - destruct (re_match BR_PATTERN (c :: s)) as [m|] eqn:E.
    + destruct (re_match_br_sound _ _ E) as (t & rest & Es & Ht & Hm).
      rewrite Es in *. subst m.
      pose proof (br_tag_length _ Ht) as Hlen.
      rewrite re_sub_match; [|destruct t; simpl in *; [lia|discriminate]|assumption].
      simpl. constructor; [assumption|].
      apply (IH (length rest)); [|reflexivity].
      subst n. rewrite length_app. lia.
    + rewrite re_sub_no_match by assumption.
      constructor; [now apply re_match_br_none|].
      apply (IH (length s)); [|reflexivity]. subst n. simpl. lia.
Qed.

(** Without a tag in it, a string is left as it is. *)
Lemma re_sub_br_id s : no_br_tag s -> re_sub BR_PATTERN [NEWLINE] s = s.
Proof.
  induction s as [|c s IH]; intros H.
  - now rewrite re_sub_nil.
  - destruct (re_match BR_PATTERN (c :: s)) as [m|] eqn:E.
    + destruct (re_match_br_sound _ _ E) as (t & rest & Es & Ht & _).
      exfalso. apply (H [] t rest); assumption.
    + rewrite re_sub_no_match by assumption. f_equal. apply IH.
      intros a t b Es. apply (H (c :: a) t b). simpl. now f_equal.
Qed.

(** [re.fullmatch] with the separator pattern accepts the strings of the
    shape the pattern describes, and no other. *)
Lemma re_fullmatch_sep t :
  re_fullmatch SEP_PATTERN t = true <-> sep_shape t.
Proof.
  unfold re_fullmatch, SEP_PATTERN. cbn [run]. split.
  - destruct (star_loop sep_class _ t) as [n|] eqn:E; [intros _|discriminate].
    apply star_loop_some in E. destruct E as (a & u & m & -> & Ha & Hk & _).
    destruct u as [|x u]; [discriminate|].
    unfold lit at 1 in Hk. destruct (N.eqb_spec x DASH) as [->|]; [|discriminate].
    destruct (star_loop (lit DASH) _ u) as [n1|] eqn:E1; [|discriminate].
    apply star_loop_some in E1. destruct E1 as (b & v & m1 & -> & Hb & Hk1 & _).
    destruct (star_loop sep_class _ v) as [n2|] eqn:E2; [|discriminate].
    apply star_loop_some in E2. destruct E2 as (c & w & m2 & -> & Hc & Hk2 & _).
    destruct w; [|discriminate].
    exists a, (DASH :: b), c. rewrite app_nil_r. repeat split; auto.
    + discriminate.
    + constructor; [reflexivity|].
      eapply Forall_impl; [|exact Hb]. intros y Hy. now apply N.eqb_eq in Hy.
  - intros (a & b & c & -> & Ha & Hb & Hd & Hc).
    destruct (star_loop sep_class _ (a ++ b ++ c)) as [n|] eqn:E; [reflexivity|].
    exfalso. pose proof (star_loop_none _ _ _ E a (b ++ c) eq_refl Ha) as H1.
    destruct b as [|x b]; [congruence|].
    inversion Hd as [|? ? Hx Hd']; subst. simpl in H1.
    destruct (star_loop (lit DASH) _ (b ++ c)) as [n1|] eqn:E1; [discriminate|].
    assert (Hb' : Forall (fun y => lit DASH y = true) b).
    { eapply Forall_impl; [|exact Hd']. intros y ->. apply N.eqb_refl. }
    pose proof (star_loop_none _ _ _ E1 b c eq_refl Hb') as H2.
    cbv beta in H2.
    pose proof (star_loop_none _ _ _ H2 c [] (eq_sym (app_nil_r c)) Hc) as H3.
    discriminate.
Qed.

End Regex.
(** ** Splitting on unescaped pipes *)

Section Split.

Lemma join_pipes_cons seg seg' segs :
  join_pipes (seg :: seg' :: segs) = seg ++ PIPE :: join_pipes (seg' :: segs).
Proof. reflexivity. Qed.

Lemma join_pipes_cons_char c seg segs :
  join_pipes ((c :: seg) :: segs) = c :: join_pipes (seg :: segs).
Proof. destruct segs; reflexivity. Qed.

Lemma unescaped_pipe_true prev c :
  unescaped_pipe prev c = true <-> c = PIPE /\ prev <> Some BACKSLASH.
Proof.
  unfold unescaped_pipe. rewrite andb_true_iff, N.eqb_eq.
  destruct prev as [p|].
  - rewrite negb_true_iff, N.eqb_neq. split; intros [H1 H2]; split; auto; congruence.
  - split; intros [H1 H2]; split; auto; congruence.
Qed.

Lemma ends_with_backslash_cons c seg :
  ends_with_backslash (c :: seg) <->
  (seg = [] /\ c = BACKSLASH) \/ ends_with_backslash seg.
Proof.
  unfold ends_with_backslash. split.
  - intros [a H]. destruct a as [|x a]; simpl in H.
    + injection H as -> ->. now left.
    + injection H as -> ->. right. now exists a.
  - intros [[-> ->] | [a ->]].
    + now exists [].
    + now exists (c :: a).
Qed.

Lemma not_ends_with_backslash_nil : ~ ends_with_backslash [].
Proof. intros [a H]. destruct a; discriminate. Qed.

Lemma split_from_nonempty s : forall prev, split_from prev s <> [].
Proof.
  induction s as [|c s IH]; intros prev; simpl.
  - discriminate.
  - destruct (unescaped_pipe prev c); [discriminate|].
    destruct (split_from (Some c) s); discriminate.
Qed.

(** The pieces [split_from] returns are the pieces between the unescaped
    pipes. *)
Lemma split_from_sound s : forall prev,
  exists seg segs, split_from prev s = seg :: segs /\ split_after prev s seg segs.
Proof.
  induction s as [|c s IH]; intros prev; simpl.
  - exists [], []. split; [reflexivity|]. repeat split.
    + intros a b H. destruct a; discriminate.
    + constructor.
    + congruence.
    + constructor.
  - destruct (unescaped_pipe prev c) eqn:Eu.
    + apply unescaped_pipe_true in Eu. destruct Eu as [-> Hprev].
      destruct (IH (Some PIPE)) as (seg & segs & E & Hj & He & Hp & Hn & Hl).
      rewrite E. exists [], (seg :: segs). split; [reflexivity|]. repeat split.
      * rewrite join_pipes_cons. simpl. f_equal. exact Hj.
      * intros a b H. destruct a; discriminate.
      * constructor; [|assumption].
        intros a b H. destruct (He a b H) as [[_ Hx] | Hx]; [discriminate | assumption].
      * intros _ [[_ Hx] | Hx]; [congruence|].
        now apply not_ends_with_backslash_nil in Hx.
      * destruct segs as [|seg' segs]; [constructor|].
        change (removelast (seg :: seg' :: segs)) with (seg :: removelast (seg' :: segs)).
        constructor; [|assumption].
        intros Hx. apply Hn; [discriminate|]. now right.
    + destruct (IH (Some c)) as (seg & segs & E & Hj & He & Hp & Hn & Hl).
      rewrite E. exists (c :: seg), segs. split; [reflexivity|]. repeat split.
      * rewrite join_pipes_cons_char. f_equal. exact Hj.
      * intros a b H. destruct a as [|x a]; simpl in H.
        -- injection H as -> _. left. split; [reflexivity|].
           destruct prev as [p|]; simpl in Eu; [|discriminate].
           apply negb_false_iff, N.eqb_eq in Eu. now subst.
        -- injection H as <- ->. right.
           apply ends_with_backslash_cons.
           destruct (He a b eq_refl) as [[-> Hx] | Hx].
           ++ left. split; [reflexivity | congruence].
           ++ now right.
      * assumption.
      * intros Hs [[Hx _] | Hx]; [discriminate|].
        apply ends_with_backslash_cons in Hx. apply (Hn Hs).
        destruct Hx as [[-> ->] | Hx]; [now left | now right].
      * assumption.
Qed.

(** They are the only ones. *)
Lemma split_from_unique s : forall prev seg segs,
  split_after prev s seg segs -> split_from prev s = seg :: segs.
Proof.
  induction s as [|c s IH]; intros prev seg segs (Hj & He & Hp & Hn & Hl).
  - destruct segs as [|seg' segs].
    + simpl in Hj. now subst.
    + rewrite join_pipes_cons in Hj. destruct seg; discriminate.
  - destruct seg as [|x seg].
    + destruct segs as [|seg' segs]; [discriminate|].
      rewrite join_pipes_cons in Hj. simpl in Hj. injection Hj as <- <-.
      simpl.
      assert (Hu : unescaped_pipe prev PIPE = true).
      { apply unescaped_pipe_true. split; [reflexivity|].
        intros Hx. apply Hn; [discriminate|]. now left. }
      rewrite Hu. f_equal. apply IH.
      inversion Hp as [|? ? Hp1 Hp2]; subst. repeat split.
      * intros a b H. right. now apply (Hp1 a b).
      * assumption.
      * intros Hs [[_ Hx] | Hx]; [discriminate|].
        destruct segs as [|seg'' segs]; [congruence|].
        change (removelast (seg' :: seg'' :: segs))
          with (seg' :: removelast (seg'' :: segs)) in Hl.
        inversion Hl; subst. contradiction.
      * destruct segs as [|seg'' segs]; [constructor|].
        change (removelast (seg' :: seg'' :: segs))
          with (seg' :: removelast (seg'' :: segs)) in Hl.
        now inversion Hl.
    + rewrite join_pipes_cons_char in Hj. injection Hj as <- <-.
      simpl.
      assert (Hu : unescaped_pipe prev x = false).
      { destruct (unescaped_pipe prev x) eqn:Eu; [|reflexivity].
        apply unescaped_pipe_true in Eu. destruct Eu as [-> Hprev].
        destruct (He [] seg eq_refl) as [[_ Hx] | Hx]; [contradiction|].
        now apply not_ends_with_backslash_nil in Hx. }
      rewrite Hu.
      rewrite (IH (Some x) seg segs); [reflexivity|]. repeat split.
      * intros a b ->.
        destruct (He (x :: a) b eq_refl) as [[Hx _] | Hx]; [discriminate|].
        apply ends_with_backslash_cons in Hx.
        destruct Hx as [[-> ->] | Hx]; [now left | now right].
      * assumption.
      * intros Hs Hx. apply (Hn Hs). right.
        apply ends_with_backslash_cons.
        destruct Hx as [[-> Hx] | Hx]; [left | now right].
        split; [reflexivity | congruence].
      * assumption.
Qed.

Lemma split_after_start s seg segs :
  split_after None s seg segs <-> split_at_unescaped_pipes s (seg :: segs).
Proof.
  unfold split_after, split_at_unescaped_pipes. split.
  - intros (Hj & He & Hp & Hn & Hl). repeat split.
    + discriminate.
    + assumption.
    + constructor; [|assumption].
      intros a b H. destruct (He a b H) as [[_ Hx] | Hx]; [discriminate | assumption].
    + destruct segs as [|seg' segs]; [constructor|].
      change (removelast (seg :: seg' :: segs)) with (seg :: removelast (seg' :: segs)).
      constructor; [|assumption].
      intros Hx. apply Hn; [discriminate|]. now right.
  - intros (_ & Hj & Hp & Hl). inversion Hp as [|? ? Hp1 Hp2]; subst.
    repeat split.
    + intros a b H. right. now apply (Hp1 a b).
    + assumption.
    + intros Hs [[_ Hx] | Hx]; [discriminate|].
      destruct segs as [|seg' segs]; [congruence|].
      change (removelast (seg :: seg' :: segs))
        with (seg :: removelast (seg' :: segs)) in Hl.
      inversion Hl; subst. contradiction.
    + destruct segs as [|seg' segs]; [constructor|].
      change (removelast (seg :: seg' :: segs))
        with (seg :: removelast (seg' :: segs)) in Hl.
      now inversion Hl.
Qed.

(** [re.split] on the tokenizer's pattern cuts at every unescaped pipe
    and nowhere else. *)
Lemma split_unescaped_pipes_spec s segs :
  split_unescaped_pipes s = segs <-> split_at_unescaped_pipes s segs.
Proof.
  unfold split_unescaped_pipes. split.
  - intros <-. destruct (split_from_sound s None) as (seg & segs & -> & H).
    now apply split_after_start.
  - intros H. destruct segs as [|seg segs]; [now destruct H|].
    apply split_from_unique. now apply split_after_start.
Qed.

(** The outer pipes of a pipe-delimited line and what is between them. *)
Lemma pipe_delimited_spec t :
  startswith [PIPE] t && endswith [PIPE] t = true <-> pipe_delimited t.
Proof.
  unfold pipe_delimited.
  now rewrite andb_true_iff, startswith_spec, endswith_spec.
Qed.

Lemma pipe_delimited_inner t :
  pipe_delimited t -> outer_pipes_stripped t (slice t 1 (-1)).
Proof.
  intros [[r ->] [r' H]].
  destruct r' as [|x r']; simpl in H.
  - injection H as ->. left. split; reflexivity.
  - injection H as <- ->. right.
    assert (Hs : slice (PIPE :: r' ++ [PIPE]) 1 (-1) = r')
      by (apply (slice_middle [PIPE] r' [PIPE]); discriminate).
    now rewrite Hs.
Qed.

End Split.
(** ** The table extractor *)

Section Extractor.

Lemma separator_is_row (line : str) :
  is_separator_line line = true ->
  exists cells, parse_markdown_table_line line = Some cells.
Proof.
  unfold is_separator_line, parse_markdown_table_line.
  destruct (negb _ || negb _); [discriminate | eauto].
Qed.

Lemma not_row_not_separator (line : str) :
  not_row line -> is_separator_line line = false.
Proof.
  intros H. destruct (is_separator_line line) eqn:E; [|reflexivity].
  apply separator_is_row in E. destruct E as [c E].
  unfold not_row in H. congruence.
Qed.

(** Every line is a row or not. *)
Lemma row_or_not (line : str) :
  not_row line \/ exists cells, row_cells line cells.
Proof.
  unfold not_row, row_cells.
  destruct (parse_markdown_table_line line); eauto.
Qed.

(** A list of lines has no row, or a first one. *)
Lemma first_row (lines : list str) :
  Forall not_row lines \/
  exists pre h cells rest,
    lines = pre ++ h :: rest /\ Forall not_row pre /\ row_cells h cells.
Proof.
  induction lines as [|l lines IH].
  - left. constructor.
  - destruct (row_or_not l) as [Hn | [cells Hc]].
    + destruct IH as [IH | (pre & h & cells & rest & -> & Hpre & Hh)].
      * left. constructor; assumption.
      * right. exists (l :: pre), h, cells, rest. repeat split; auto.
    + right. exists [], l, cells, lines. repeat split; auto.
Qed.

(** Before the header: lines that are not rows are passed over. *)
Lemma scan_seeking pre : forall rest i hs rows out,
  Forall not_row pre ->
  scan i (pre ++ rest) (mkLocals hs rows false false false out)
  = scan (i + length pre) rest (mkLocals hs rows false false false out).
Proof.
  induction pre as [|l pre IH]; intros rest i hs rows out Hpre; simpl.
  - f_equal. lia.
  - inversion Hpre as [|? ? Hl Hpre']; subst.
    unfold loop_body; simpl. rewrite Hl. simpl.
    rewrite IH by assumption. f_equal. lia.
Qed.

(** The first row becomes the header, whatever it looks like. *)
Lemma body_header i h cells hs rows out :
  row_cells h cells ->
  loop_body i h (mkLocals hs rows false false false out)
  = Continue (mkLocals cells rows true false true
                       (out ++ [MsgFoundHeader (i + 1) cells])).
Proof.
  intros Hh. unfold loop_body; simpl. rewrite Hh. reflexivity.
Qed.

(** Between header and separator: lines that are not rows are passed over. *)
Lemma scan_awaiting mid : forall rest i hs rows out,
  Forall not_row mid ->
  scan i (mid ++ rest) (mkLocals hs rows true false true out)
  = scan (i + length mid) rest (mkLocals hs rows true false true out).
Proof.
  induction mid as [|l mid IH]; intros rest i hs rows out Hmid; simpl.
  - f_equal. lia.
  - inversion Hmid as [|? ? Hl Hmid']; subst.
    unfold loop_body; simpl.
    rewrite (not_row_not_separator _ Hl), Hl. simpl.
    rewrite IH by assumption. f_equal. lia.
Qed.

Lemma body_separator i sep hs rows out :
  is_separator_line sep = true ->
  loop_body i sep (mkLocals hs rows true false true out)
  = Continue (mkLocals hs rows true true true
                       (out ++ [MsgFoundSeparator (i + 1)])).
Proof.
  intros Hs. unfold loop_body; simpl. rewrite Hs. reflexivity.
Qed.

Lemma body_row_before_separator i r cells hs rows out :
  row_cells r cells -> is_separator_line r = false ->
  loop_body i r (mkLocals hs rows true false true out)
  = Return (mkResult hs rows false (out ++ [ErrDataBeforeSeparator (i + 1)])).
Proof.
  intros Hr Hs. unfold loop_body; simpl. rewrite Hs, Hr. reflexivity.
Qed.

(** After the separator: rows are appended until a line is not a row. *)
Lemma scan_rows lines : forall i hs rows out,
  scan i lines (mkLocals hs rows true true true out)
  = inl (mkLocals hs (rows ++ leading_rows lines) true true true
                  (out ++ row_messages i (length hs) lines)).
Proof.
  induction lines as [|l lines IH]; intros i hs rows out; simpl.
  - now rewrite !app_nil_r.
  - unfold loop_body; simpl.
    destruct (parse_markdown_table_line l) as [cells|]; simpl.
    + destruct (length cells =? length hs); simpl;
        rewrite IH; simpl; now rewrite <- !app_assoc.
    + now rewrite app_nil_r.
Qed.

(** The four shapes of an input and the result of each. *)

Lemma parse_no_header lines :
  no_header_found lines ->
  parse_markdown_table lines
  = mkResult [] [] false [MsgProcessing; ErrNoHeader].
Proof.
  intros H. unfold parse_markdown_table, initial.
  rewrite <- (app_nil_r lines), scan_seeking by assumption.
  reflexivity.
Qed.

Lemma parse_no_separator pre h cells mid :
  Forall not_row pre -> row_cells h cells -> Forall not_row mid ->
  parse_markdown_table (pre ++ h :: mid)
  = mkResult cells [] false
      [MsgProcessing; MsgFoundHeader (length pre + 1) cells; ErrNoSeparator].
Proof.
  intros Hpre Hh Hmid. unfold parse_markdown_table, initial.
  rewrite scan_seeking by assumption. simpl scan.
  erewrite body_header by eassumption.
  rewrite <- (app_nil_r mid), scan_awaiting by assumption.
  reflexivity.
Qed.

Lemma parse_row_before_separator pre h hcells mid r rcells rest :
  Forall not_row pre -> row_cells h hcells -> Forall not_row mid ->
  row_cells r rcells -> is_separator_line r = false ->
  parse_markdown_table (pre ++ h :: mid ++ r :: rest)
  = mkResult hcells [] false
      [MsgProcessing; MsgFoundHeader (length pre + 1) hcells;
       ErrDataBeforeSeparator (length pre + length mid + 2)].
Proof.
  intros Hpre Hh Hmid Hr Hs. unfold parse_markdown_table, initial.
  rewrite scan_seeking by assumption. simpl scan.
  erewrite body_header by eassumption.
  rewrite scan_awaiting by assumption. simpl scan.
  erewrite body_row_before_separator by eassumption.
  simpl. repeat f_equal. lia.
Qed.

Lemma parse_header_then_separator pre h hcells mid sep rest :
  Forall not_row pre -> row_cells h hcells -> Forall not_row mid ->
  is_separator_line sep = true ->
  parse_markdown_table (pre ++ h :: mid ++ sep :: rest)
  = mkResult hcells (leading_rows rest) true
      ([MsgProcessing; MsgFoundHeader (length pre + 1) hcells;
        MsgFoundSeparator (length pre + length mid + 2)]
       ++ row_messages (length pre + length mid + 2) (length hcells) rest
       ++ match leading_rows rest with
          | [] => [WarnNoDataRows]
          | _ :: _ => []
          end).
Proof.
  intros Hpre Hh Hmid Hs. unfold parse_markdown_table, initial.
  rewrite scan_seeking by assumption. simpl scan.
  erewrite body_header by eassumption.
  rewrite scan_awaiting by assumption. simpl scan.
  erewrite body_separator by eassumption.
  rewrite scan_rows. unfold validate; simpl.
  destruct (leading_rows rest); simpl;
    rewrite <- ?app_assoc, ?app_nil_r; simpl; repeat (f_equal; try lia).
Qed.

(** Every input has one of the four shapes. *)
Lemma shapes lines :
  no_header_found lines \/ no_separator_found lines \/
  (exists n, row_before_separator lines n) \/ header_then_separator lines.
Proof.
  destruct (first_row lines) as [H | (pre & h & hcells & tail & -> & Hpre & Hh)].
  - now left.
  - right.
    destruct (first_row tail) as [H | (mid & x & xcells & rest & -> & Hmid & Hx)].
    + left. now exists pre, h, hcells, tail.
    + right. destruct (is_separator_line x) eqn:Ex.
      * right. now exists pre, h, hcells, mid, x, rest.
      * left. exists (length pre + length mid + 2).
        now exists pre, h, hcells, mid, x, xcells, rest.
Qed.

(** The function follows the case description on every input. *)
Lemma parse_extracts lines : extracts lines (parse_markdown_table lines).
Proof.
  destruct (shapes lines) as [H | [H | [[n H] | H]]].
  - rewrite parse_no_header by assumption. now constructor.
  - destruct H as (pre & h & cells & mid & -> & Hpre & Hh & Hmid).
    rewrite (parse_no_separator pre h cells mid) by assumption.
    now constructor.
  - destruct H as (pre & h & hcells & mid & r & rcells & rest & -> &
                   Hpre & Hh & Hmid & Hr & Hs & _).
    rewrite (parse_row_before_separator pre h hcells mid r rcells rest)
      by assumption.
    now apply extracts_row_before_separator with (rcells := rcells).
  - destruct H as (pre & h & hcells & mid & sep & rest & -> & Hpre & Hh & Hmid & Hs).
    rewrite (parse_header_then_separator pre h hcells mid sep rest) by assumption.
    now constructor.
Qed.

(** While the body of the table is all rows, the next row is the next
    data row. *)
Lemma leading_rows_app body line cells rest :
  Forall (fun l => ~ not_row l) body -> row_cells line cells ->
  nth_error (leading_rows (body ++ line :: rest)) (length body) = Some cells.
Proof.
  intros Hb Hl. induction Hb as [|l body Hrow _ IH]; simpl.
  - now rewrite Hl.
  - destruct (parse_markdown_table_line l) eqn:E; [exact IH|].
    now contradiction Hrow.
Qed.

End Extractor.
(** ** The contract of the table extractor *)

Section ExtractorContract.

Lemma Forall_not_row_first_cells pre rest :
  Forall not_row pre -> first_row_cells (pre ++ rest) = first_row_cells rest.
Proof.
  induction 1 as [|l pre Hl _ IH]; simpl; [reflexivity|].
  now rewrite Hl.
Qed.

Lemma first_row_cells_none lines :
  Forall not_row lines -> first_row_cells lines = [].
Proof.
  intros H. rewrite <- (app_nil_r lines). now rewrite Forall_not_row_first_cells.
Qed.

Lemma first_row_cells_at pre h cells rest :
  Forall not_row pre -> row_cells h cells ->
  first_row_cells (pre ++ h :: rest) = cells.
Proof.
  intros Hpre Hh. rewrite Forall_not_row_first_cells by assumption.
  simpl. now rewrite Hh.
Qed.

(** A data row comes from a line of the table body, unchanged, and a row
    of another width than expected has its warning. *)
Lemma leading_rows_nth expected body : forall i k row,
  nth_error (leading_rows body) k = Some row ->
  exists line,
    nth_error body k = Some line /\ row_cells line row /\
    (length row <> expected ->
     In (WarnRowWidth (i + k + 1) (length row) expected)
        (row_messages i expected body)).
Proof.
  induction body as [|l body IH]; intros i k row H; simpl in H.
  - destruct k; discriminate.
  - simpl. destruct (parse_markdown_table_line l) as [cells|] eqn:El.
    + destruct k as [|k]; simpl in H.
      * injection H as <-. exists l. repeat split; [assumption|].
        intros Hne. apply in_or_app. left.
        destruct (Nat.eqb_spec (length cells) expected); [contradiction|].
        simpl. left. f_equal. lia.
      * destruct (IH (S i) k row H) as (line & Hn & Hc & Hw).
        exists line. repeat split; [assumption..|].
        intros Hne. apply in_or_app. right.
        replace (i + S k + 1) with (S i + k + 1) by lia. now apply Hw.
    + destruct k; discriminate.
Qed.

Lemma row_messages_no_error expected body : forall i,
  Forall (fun m => is_error m = false) (row_messages i expected body).
Proof.
  induction body as [|l body IH]; intros i; simpl.
  - constructor.
  - destruct (parse_markdown_table_line l) as [cells|].
    + apply Forall_app. split; [|apply IH].
      destruct (negb _); repeat constructor.
    + repeat constructor.
Qed.

Lemma nth_error_middle (pre mid : list str) h sep body k line :
  nth_error body k = Some line ->
  nth_error (pre ++ h :: mid ++ sep :: body) (length pre + length mid + 2 + k)
  = Some line.
Proof.
  intros H.
  rewrite nth_error_app2 by lia.
  replace (length pre + length mid + 2 + k - length pre)
    with (S (length mid + S k)) by lia.
  simpl. rewrite nth_error_app2 by lia.
  replace (length mid + S k - length mid) with (S k) by lia.
  exact H.
Qed.

(** C1: the extraction fails if and only if no header row is found, or a
    header is found and no separator after it, or a second row comes
    after the header and before any separator; in the last case the scan
    stops at that row, whatever follows, and the error names its line
    (line 2 for the lines "| H1 | H2 |", "| a | b |", "|---|---|").  In
    every other case the extraction succeeds, also when header and
    separator are followed by no data row. *)
Theorem C1_failure_iff :
  (forall lines,
     res_success (parse_markdown_table lines) = false <->
     no_header_found lines \/ no_separator_found lines \/
     exists n, row_before_separator lines n) /\
  (forall pre h hcells mid r rcells rest rest',
     Forall not_row pre -> row_cells h hcells -> Forall not_row mid ->
     row_cells r rcells -> is_separator_line r = false ->
     parse_markdown_table (pre ++ h :: mid ++ r :: rest)
     = parse_markdown_table (pre ++ h :: mid ++ r :: rest') /\
     res_success (parse_markdown_table (pre ++ h :: mid ++ r :: rest)) = false /\
     In (ErrDataBeforeSeparator (length pre + length mid + 2))
        (res_printed (parse_markdown_table (pre ++ h :: mid ++ r :: rest)))) /\
  (forall lines,
     header_then_separator lines ->
     res_success (parse_markdown_table lines) = true) /\
  (forall pre h hcells mid sep,
     Forall not_row pre -> row_cells h hcells -> Forall not_row mid ->
     is_separator_line sep = true ->
     parse_markdown_table (pre ++ h :: mid ++ [sep])
     = mkResult hcells [] true
         [MsgProcessing; MsgFoundHeader (length pre + 1) hcells;
          MsgFoundSeparator (length pre + length mid + 2); WarnNoDataRows]) /\
  parse_markdown_table data_before_separator_lines
  = mkResult [pystr "H1"; pystr "H2"] [] false
      [MsgProcessing; MsgFoundHeader 1 [pystr "H1"; pystr "H2"];
       ErrDataBeforeSeparator 2].
Proof.
  split; [|split; [|split; [|split]]].
  - intros lines. split.
    + intros Hf.
      destruct (parse_extracts lines)
        as [lines H | pre h cells mid | pre h hcells mid r rcells rest | ];
        [ | | | discriminate Hf ].
      * now left.
      * right. left. now exists pre, h, cells, mid.
      * right. right. exists (length pre + length mid + 2).
        now exists pre, h, hcells, mid, r, rcells, rest.
    + intros [H | [H | [n H]]].
      * now rewrite parse_no_header.
      * destruct H as (pre & h & cells & mid & -> & Hpre & Hh & Hmid).
        now rewrite (parse_no_separator pre h cells mid).
      * destruct H as (pre & h & hcells & mid & r & rcells & rest & -> &
                       Hpre & Hh & Hmid & Hr & Hs & _).
        now rewrite (parse_row_before_separator pre h hcells mid r rcells rest).
  - intros pre h hcells mid r rcells rest rest' Hpre Hh Hmid Hr Hs.
    rewrite (parse_row_before_separator pre h hcells mid r rcells rest),
            (parse_row_before_separator pre h hcells mid r rcells rest')
      by assumption.
    simpl. repeat split. right. right. now left.
  - intros lines (pre & h & hcells & mid & sep & rest & -> & Hpre & Hh & Hmid & Hs).
    now rewrite (parse_header_then_separator pre h hcells mid sep rest).
  - intros pre h hcells mid sep Hpre Hh Hmid Hs.
    now rewrite (parse_header_then_separator pre h hcells mid sep []).
  - vm_compute. reflexivity.
Qed.

(** The structural error of the example, through the general statement. *)
Lemma C1_failure_iff_witness :
  row_before_separator data_before_separator_lines 2 /\
  res_success (parse_markdown_table data_before_separator_lines) = false.
Proof.
  assert (H : row_before_separator data_before_separator_lines 2).
  { exists [], (pystr "| H1 | H2 |"), [pystr "H1"; pystr "H2"], [],
      (pystr "| a | b |"), [pystr "a"; pystr "b"], [pystr "|---|---|"].
    repeat split; try constructor. }
  split; [exact H|].
  apply (proj2 (proj1 C1_failure_iff data_before_separator_lines)).
  right. right. exists 2. exact H.
Defined.

(** C2: for the lines "| H1 | H2 |", "|---|---|", "| a | b |", "| c | d |"
    the extraction succeeds with headers H1, H2 and the data rows a, b and
    c, d, in this order, and prints no warning: the first row is the
    header, the dash row is taken as the separator and is no data row. *)
Theorem C2_table_example :
  parse_markdown_table table_lines
  = mkResult [pystr "H1"; pystr "H2"]
      [[pystr "a"; pystr "b"]; [pystr "c"; pystr "d"]] true
      [MsgProcessing; MsgFoundHeader 1 [pystr "H1"; pystr "H2"];
       MsgFoundSeparator 2] /\
  existsb is_warning (res_printed (parse_markdown_table table_lines)) = false /\
  is_separator_line (pystr "|---|---|") = true.
Proof. vm_compute. auto. Qed.

(** C7: a row of the table body becomes a data row with the cells the
    tokenizer gives it, whatever their number, and every data row of the
    result is such a row; when its width differs from the header's, a
    width warning for its line is printed, no error is, and the
    extraction reports success.  For the lines "| H1 |", "|---|",
    "| a | b |" the row a, b is kept and the warning printed. *)
Theorem C7_row_width_mismatch :
  (forall pre h hcells mid sep body line cells rest,
     Forall not_row pre -> row_cells h hcells -> Forall not_row mid ->
     is_separator_line sep = true ->
     Forall (fun l => ~ not_row l) body -> row_cells line cells ->
     let r := parse_markdown_table
                (pre ++ h :: mid ++ sep :: body ++ line :: rest) in
     nth_error (res_rows r) (length body) = Some cells /\
     res_success r = true /\
     (length cells <> length hcells ->
      In (WarnRowWidth (length pre + length mid + length body + 3)
                       (length cells) (length hcells))
         (res_printed r))) /\
  (forall lines k row,
     nth_error (res_rows (parse_markdown_table lines)) k = Some row ->
     res_success (parse_markdown_table lines) = true /\
     Forall (fun m => is_error m = false)
            (res_printed (parse_markdown_table lines)) /\
     exists i line,
       nth_error lines i = Some line /\ row_cells line row /\
       (length row <> length (res_headers (parse_markdown_table lines)) ->
        In (WarnRowWidth (i + 1) (length row)
                         (length (res_headers (parse_markdown_table lines))))
           (res_printed (parse_markdown_table lines)))) /\
  parse_markdown_table wide_row_lines
  = mkResult [pystr "H1"] [[pystr "a"; pystr "b"]] true
      [MsgProcessing; MsgFoundHeader 1 [pystr "H1"]; MsgFoundSeparator 2;
       WarnRowWidth 3 2 1].
Proof.
  split; [|split; [|vm_compute; reflexivity]].
  - intros pre h hcells mid sep body line cells rest Hpre Hh Hmid Hs Hb Hl r.
    subst r.
    rewrite (parse_header_then_separator pre h hcells mid sep) by assumption.
    cbn [res_rows res_success res_printed].
    pose proof (leading_rows_app body line cells rest Hb Hl) as Hk.
    split; [exact Hk|]. split; [reflexivity|].
    intros Hne.
    destruct (leading_rows_nth (length hcells) (body ++ line :: rest)
                (length pre + length mid + 2) (length body) cells Hk)
      as (line' & _ & _ & Hw).
    apply in_or_app. right. apply in_or_app. left.
    replace (length pre + length mid + length body + 3)
      with (length pre + length mid + 2 + length body + 1) by lia.
    now apply Hw.
  - intros lines k row Hk.
    destruct (parse_extracts lines)
      as [lines H | pre h cells mid | pre h hcells mid r rcells rest
          | pre h hcells mid sep rest Hpre Hh Hmid Hs];
      cbn [res_rows res_success res_headers res_printed] in *;
      try (destruct k; discriminate Hk).
    destruct (leading_rows_nth (length hcells) rest
                (length pre + length mid + 2) k row Hk)
      as (line & Hn & Hc & Hw).
    split; [reflexivity|]. split.
    + apply Forall_app. split; [repeat constructor|].
      apply Forall_app. split; [apply row_messages_no_error|].
      destruct (leading_rows rest); repeat constructor.
    + exists (length pre + length mid + 2 + k), line.
      repeat split; [now apply nth_error_middle | assumption |].
      intros Hne. apply in_or_app. right. apply in_or_app. left.
      now apply Hw.
Qed.

Lemma C7_row_width_mismatch_witness :
  nth_error (res_rows (parse_markdown_table wide_row_lines)) 0
  = Some [pystr "a"; pystr "b"] /\
  res_success (parse_markdown_table wide_row_lines) = true.
Proof.
  assert (H : nth_error (res_rows (parse_markdown_table wide_row_lines)) 0
              = Some [pystr "a"; pystr "b"]) by (vm_compute; reflexivity).
  split; [exact H|].
  exact (proj1 (proj1 (proj2 C7_row_width_mismatch) wide_row_lines 0 _ H)).
Defined.

(** C9: a failed extraction returns, with the failure flag, what was
    collected before it failed: the cells of the first row of the input
    as headers (none when the input has no row) and no data row, since a
    failure comes before any separator; on a row before the separator the
    header already recorded is returned. *)
Theorem C9_failure_keeps_state :
  (forall lines,
     res_success (parse_markdown_table lines) = false ->
     res_headers (parse_markdown_table lines) = first_row_cells lines /\
     res_rows (parse_markdown_table lines) = []) /\
  (forall pre h hcells mid r rcells rest,
     Forall not_row pre -> row_cells h hcells -> Forall not_row mid ->
     row_cells r rcells -> is_separator_line r = false ->
     res_headers (parse_markdown_table (pre ++ h :: mid ++ r :: rest)) = hcells /\
     res_rows (parse_markdown_table (pre ++ h :: mid ++ r :: rest)) = [] /\
     res_success (parse_markdown_table (pre ++ h :: mid ++ r :: rest)) = false).
Proof.
  split.
  - intros lines Hf.
    destruct (parse_extracts lines)
      as [lines H | pre h cells mid | pre h hcells mid r rcells rest | ];
      [ | | | discriminate Hf ]; simpl.
    + now rewrite first_row_cells_none.
    + now rewrite (first_row_cells_at pre h cells mid).
    + now rewrite (first_row_cells_at pre h hcells _).
  - intros pre h hcells mid r rcells rest Hpre Hh Hmid Hr Hs.
    now rewrite (parse_row_before_separator pre h hcells mid r rcells rest).
Qed.

Lemma C9_failure_keeps_state_witness :
  res_success (parse_markdown_table data_before_separator_lines) = false /\
  res_headers (parse_markdown_table data_before_separator_lines)
  = first_row_cells data_before_separator_lines /\
  res_rows (parse_markdown_table data_before_separator_lines) = [].
Proof.
  split; [vm_compute; reflexivity|].
  apply (proj1 C9_failure_keeps_state data_before_separator_lines).
  vm_compute; reflexivity.
Defined.

(** C10: the separator test runs only once a header is recorded, so when
    the first row of the input has the shape of a separator it is
    tokenized and becomes the header: after it the header is found and
    the separator is not, and its cells are the headers returned.  For
    the lines "|---|", "|---|", "| a |" the extraction succeeds with the
    header "---" and the data row "a". *)
Theorem C10_separator_shaped_header :
  (forall pre h rest,
     Forall not_row pre -> is_separator_line h = true ->
     exists cells,
       row_cells h cells /\
       scan 0 (pre ++ [h]) initial
       = inl (mkLocals cells [] true false true
                [MsgProcessing; MsgFoundHeader (length pre + 1) cells]) /\
       res_headers (parse_markdown_table (pre ++ h :: rest)) = cells) /\
  res_headers (parse_markdown_table dash_header_lines) = [pystr "---"] /\
  res_rows (parse_markdown_table dash_header_lines) = [[pystr "a"]] /\
  res_success (parse_markdown_table dash_header_lines) = true.
Proof.
  split; [|vm_compute; auto].
  intros pre h rest Hpre Hs.
  destruct (separator_is_row h Hs) as [cells Hh].
  exists cells. split; [exact Hh|]. split.
  - unfold initial. rewrite scan_seeking by assumption. simpl scan.
    erewrite body_header by eassumption. reflexivity.
  - destruct (first_row rest) as [H | (mid & x & xcells & rest' & -> & Hmid & Hx)].
    + now rewrite (parse_no_separator pre h cells rest).
    + destruct (is_separator_line x) eqn:Ex.
      * now rewrite (parse_header_then_separator pre h cells mid x rest').
      * now rewrite (parse_row_before_separator pre h cells mid x xcells rest').
Qed.

Lemma C10_separator_shaped_header_witness :
  is_separator_line (pystr "|---|") = true /\
  exists cells,
    row_cells (pystr "|---|") cells /\
    res_headers (parse_markdown_table dash_header_lines) = cells.
Proof.
  split; [vm_compute; reflexivity|].
  destruct (proj1 C10_separator_shaped_header [] (pystr "|---|")
              (map pystr ["|---|"; "| a |"]%string)
              (Forall_nil _) eq_refl) as (cells & Hc & _ & Hh).
  exists cells. split; [exact Hc | exact Hh].
Defined.

End ExtractorContract.
(** ** The contracts of the cell and row functions *)

Section CellContracts.

Lemma parse_line_unfold line :
  parse_markdown_table_line line
  = if startswith [PIPE] (strip line) && endswith [PIPE] (strip line)
    then Some (map (fun seg => preprocess_cell_content
                                 (Some (unescape_markdown_cell (strip seg))))
                   (split_unescaped_pipes (slice (strip line) 1 (-1))))
    else None.
Proof.
  unfold parse_markdown_table_line.
  destruct (startswith _ _), (endswith _ _); reflexivity.
Qed.

Lemma forallb_map_strip (f g : str -> bool) (h : str -> str) :
  (forall x, f (h x) = g x) ->
  forall l, forallb f (map h l) = forallb g l.
Proof.
  intros Hfg. induction l as [|x l IH]; simpl; [reflexivity|].
  now rewrite Hfg, IH.
Qed.

Lemma is_separator_unfold line :
  is_separator_line line
  = startswith [PIPE] (strip line) && endswith [PIPE] (strip line)
    && forallb (fun seg => match strip seg with
                           | [] => true
                           | _ :: _ => re_fullmatch SEP_PATTERN (strip seg)
                           end)
               (split_unescaped_pipes (slice (strip line) 1 (-1))).
Proof.
  unfold is_separator_line.
  destruct (startswith _ _), (endswith _ _); try reflexivity. simpl.
  unfold split_unescaped_pipes.
  destruct (split_from None (slice (strip line) 1 (-1))) as [|seg segs] eqn:E.
  - now apply split_from_nonempty in E.
  - apply forallb_map_strip. intros x.
    destruct (strip x); reflexivity.
Qed.

Lemma outer_pipes_stripped_inv t inner :
  outer_pipes_stripped t inner ->
  pipe_delimited t /\ slice t 1 (-1) = inner.
Proof.
  intros [[-> ->] | ->].
  - split; [|reflexivity]. split; [now exists [] | now exists []].
  - split.
    + split; [now exists (inner ++ [PIPE]) | now exists (PIPE :: inner)].
    + apply (slice_middle [PIPE] inner [PIPE]). discriminate.
Qed.

(** C5: the tokenizer answers "not a row" exactly when the trimmed line
    does not both start and end with a pipe; otherwise its cells are the
    pieces of the text between the outer pipes, cut at every pipe that no
    backslash precedes, each piece trimmed, then unescaped, then
    normalized; there is at least one cell.  The line "| a | b\|c | d |"
    gives the cells "a", "b|c", "d", and the line "||" gives one empty
    cell. *)
Theorem C5_tokenizer_contract :
  (forall line,
     parse_markdown_table_line line = None <-> ~ pipe_delimited (strip line)) /\
  (forall line cells,
     parse_markdown_table_line line = Some cells <->
     exists inner segs,
       outer_pipes_stripped (strip line) inner /\
       split_at_unescaped_pipes inner segs /\
       cells = map (fun seg => preprocess_cell_content
                                 (Some (unescape_markdown_cell (strip seg))))
                   segs) /\
  (forall line cells,
     parse_markdown_table_line line = Some cells -> 1 <= length cells) /\
  parse_markdown_table_line (pystr "| a | b\|c | d |")
  = Some [pystr "a"; pystr "b|c"; pystr "d"] /\
  parse_markdown_table_line (pystr "||") = Some [EMPTY].
Proof.
  assert (Hsome : forall line cells,
     parse_markdown_table_line line = Some cells <->
     exists inner segs,
       outer_pipes_stripped (strip line) inner /\
       split_at_unescaped_pipes inner segs /\
       cells = map (fun seg => preprocess_cell_content
                                 (Some (unescape_markdown_cell (strip seg))))
                   segs).
  { intros line cells. rewrite parse_line_unfold. split.
    - destruct (startswith _ _ && endswith _ _) eqn:E; [|discriminate].
      intros H. injection H as <-. apply pipe_delimited_spec in E.
      exists (slice (strip line) 1 (-1)),
             (split_unescaped_pipes (slice (strip line) 1 (-1))).
      split; [now apply pipe_delimited_inner|].
      split; [now apply split_unescaped_pipes_spec | reflexivity].
    - intros (inner & segs & Ho & Hsp & ->).
      apply outer_pipes_stripped_inv in Ho. destruct Ho as [Hp <-].
      apply pipe_delimited_spec in Hp. rewrite Hp.
      apply split_unescaped_pipes_spec in Hsp. now rewrite Hsp. }
  split; [|split; [exact Hsome|split]].
  - intros line. rewrite parse_line_unfold, <- pipe_delimited_spec.
    destruct (startswith _ _ && endswith _ _); split; try discriminate; auto.
    intros H. now contradiction H.
  - intros line cells H. apply Hsome in H.
    destruct H as (inner & segs & _ & (Hne & _) & ->).
    rewrite length_map. destruct segs; [congruence | simpl; lia].
  - split; vm_compute; reflexivity.
Qed.

Lemma C5_tokenizer_contract_witness :
  parse_markdown_table_line (pystr "||") = Some [EMPTY] /\
  1 <= length [EMPTY].
Proof.
  assert (H : parse_markdown_table_line (pystr "||") = Some [EMPTY])
    by (vm_compute; reflexivity).
  split; [exact H|].
  exact (proj1 (proj2 (proj2 C5_tokenizer_contract)) (pystr "||") [EMPTY] H).
Defined.

(** C6: a line is a separator exactly when, trimmed, it starts and ends
    with a pipe and every piece between the unescaped pipes of its inner
    text, trimmed, is empty or has the shape of the pattern: characters of
    colon, whitespace and dash, at least one dash, characters of colon,
    whitespace and dash.  "|---|:---:|---:|" is a separator, "| a | b |"
    is not, and "|  |---|", with a blank piece, is. *)
Theorem C6_separator_contract :
  (forall line,
     is_separator_line line = true <->
     exists inner segs,
       outer_pipes_stripped (strip line) inner /\
       split_at_unescaped_pipes inner segs /\
       Forall (fun seg => strip seg = [] \/ sep_shape (strip seg)) segs) /\
  sep_shape [DASH] /\
  is_separator_line (pystr "|---|:---:|---:|") = true /\
  is_separator_line (pystr "| a | b |") = false /\
  is_separator_line (pystr "|  |---|") = true.
Proof.
  split; [|split; [|vm_compute; auto]].
  - intros line. rewrite is_separator_unfold.
    assert (Hall : forall segs,
      forallb (fun seg => match strip seg with
                          | [] => true
                          | _ :: _ => re_fullmatch SEP_PATTERN (strip seg)
                          end) segs = true <->
      Forall (fun seg => strip seg = [] \/ sep_shape (strip seg)) segs).
    { intros segs. rewrite forallb_forall, Forall_forall.
      split; intros H seg Hin; specialize (H seg Hin).
      - destruct (strip seg) eqn:E; [now left|]. right.
        now apply re_fullmatch_sep.
      - destruct (strip seg) eqn:E; [reflexivity|].
        destruct H as [H | H]; [discriminate|]. now apply re_fullmatch_sep. }
    split.
    + intros H. apply andb_true_iff in H. destruct H as [Hp Hf].
      apply pipe_delimited_spec in Hp.
      exists (slice (strip line) 1 (-1)),
             (split_unescaped_pipes (slice (strip line) 1 (-1))).
      split; [now apply pipe_delimited_inner|].
      split; [now apply split_unescaped_pipes_spec | now apply Hall].
    + intros (inner & segs & Ho & Hsp & Hf).
      apply outer_pipes_stripped_inv in Ho. destruct Ho as [Hp <-].
      apply pipe_delimited_spec in Hp. rewrite Hp. simpl.
      apply split_unescaped_pipes_spec in Hsp. rewrite Hsp. now apply Hall.
  - exists [], [DASH], []. repeat split; try constructor; auto. discriminate.
Qed.

Lemma C6_separator_contract_witness :
  is_separator_line (pystr "|---|") = true /\
  exists inner segs,
    outer_pipes_stripped (strip (pystr "|---|")) inner /\
    split_at_unescaped_pipes inner segs /\
    Forall (fun seg => strip seg = [] \/ sep_shape (strip seg)) segs.
Proof.
  assert (H : is_separator_line (pystr "|---|") = true) by (vm_compute; reflexivity).
  split; [exact H|].
  exact (proj1 (proj1 C6_separator_contract (pystr "|---|")) H).
Defined.

End CellContracts.

(** ** The normalizer, the unescaper and the annotator *)

Section Normalizer.

Lemma br_tag_prefix_unique t1 r1 t2 r2 :
  br_tag t1 -> br_tag t2 -> t1 ++ r1 = t2 ++ r2 -> t1 = t2 /\ r1 = r2.
Proof.
  intros H1 H2 E.
  pose proof (re_match_br_complete t1 r1 H1) as M1.
  pose proof (re_match_br_complete t2 r2 H2) as M2.
  rewrite E, M2 in M1. injection M1 as L.
  assert (Et : t1 = t2).
  { apply (f_equal (firstn (length t1))) in E.
    rewrite firstn_app, firstn_all, Nat.sub_diag, firstn_O, app_nil_r in E.
    rewrite <- L, firstn_app, firstn_all, Nat.sub_diag, firstn_O, app_nil_r in E.
    exact E. }
  split; [exact Et|]. subst t2. now apply app_inv_head in E.
Qed.

(** The substitution of the tags has one result. *)
Lemma br_subst_functional s o1 :
  br_subst s o1 -> forall o2, br_subst s o2 -> o1 = o2.
Proof.
  induction 1 as [|t rest out Ht H1 IH|c rest out Hn H1 IH]; intros o2 H2.
  - remember [] as s eqn:Es. destruct H2 as [|t' rest' out' Ht' H2|]; try discriminate.
    + reflexivity.
    + apply br_tag_length in Ht'. destruct t'; simpl in *; [lia|discriminate].
  - remember (t ++ rest) as s eqn:Es.
    destruct H2 as [|t' rest' out' Ht' H2|c' rest' out' Hn' H2].
    + apply br_tag_length in Ht. destruct t; simpl in *; [lia|discriminate].
    + destruct (br_tag_prefix_unique t' rest' t rest Ht' Ht Es) as [-> ->].
      f_equal. now apply IH.
    + exfalso. exact (Hn' t rest Es Ht).
  - remember (c :: rest) as s eqn:Es.
    destruct H2 as [|t' rest' out' Ht' H2|c' rest' out' Hn' H2].
    + discriminate.
    + exfalso. exact (Hn t' rest' eq_refl Ht').
    + injection Es as -> ->. f_equal. now apply IH.
Qed.

Lemma br_tag_has_lt t : br_tag t -> In LT t.
Proof. intros [b r ws slash _ _ _ _]. now left. Qed.

(** A string without [<] has no tag. *)
Lemma no_lt_no_br_tag s : ~ In LT s -> no_br_tag s.
Proof.
  intros H a t b -> Ht. apply H.
  apply in_or_app. right. apply in_or_app. left. now apply br_tag_has_lt.
Qed.

Lemma not_br_tag_by_match t :
  re_match BR_PATTERN t = None -> ~ br_tag t.
Proof.
  intros H Ht. pose proof (re_match_br_complete t [] Ht) as M.
  rewrite app_nil_r in M. congruence.
Qed.

(** C4, as the specification states it, fails: a break tag with
    whitespace between the slash and the closing bracket is not replaced;
    "a<br/ >b" is returned as it is, not as "a", newline, "b". *)
Lemma C4_counterexample :
  preprocess_cell_content (Some (pystr "a<br/ >b")) = pystr "a<br/ >b" /\
  preprocess_cell_content (Some (pystr "a<br/ >b"))
  <> pystr "a" ++ [NEWLINE] ++ pystr "b".
Proof. split; [vm_compute; reflexivity | vm_compute; discriminate]. Qed.

(** C4, as amended: the normalizer maps [None] to the empty string;
    otherwise it replaces every line-break tag ([<], [b] and [r] in
    either case, any whitespace, an optional slash, [>]: "<br>", "<BR/>",
    "<br />", and not "<br/ >") by one newline character, from the left,
    and returns the result without its leading and trailing whitespace,
    the inner characters, newlines included, left in place. *)
Theorem C4_normalizer_contract :
  preprocess_cell_content None = [] /\
  (forall text, exists mid, br_subst text mid) /\
  (forall text mid,
     br_subst text mid ->
     preprocess_cell_content (Some text) = strip mid /\
     trimmed mid (preprocess_cell_content (Some text))) /\
  br_tag (pystr "<br>") /\ br_tag (pystr "<BR/>") /\ br_tag (pystr "<br />") /\
  ~ br_tag (pystr "<br/ >") /\
  preprocess_cell_content (Some (pystr "a<br>b<BR/>c<br />d"))
  = pystr "a" ++ [NEWLINE] ++ pystr "b" ++ [NEWLINE] ++ pystr "c"
    ++ [NEWLINE] ++ pystr "d" /\
  preprocess_cell_content (Some (pystr " <br>x <br> y<br> ")) 
  = pystr "x " ++ [NEWLINE] ++ pystr " y".
Proof.
  split; [reflexivity|].
  split; [intros text; eexists; apply re_sub_br_subst|].
  split.
  - intros text mid H.
    rewrite (br_subst_functional _ _ H _ (re_sub_br_subst text)).
    split; [reflexivity | apply strip_spec].
  - split; [|split; [|split; [|split; [|split]]]].
    + apply (br_tag_intro (chr "b") (chr "r") [] []); auto. constructor.
    + apply (br_tag_intro (chr "B") (chr "R") [] [SLASH]); auto. constructor.
    + apply (br_tag_intro (chr "b") (chr "r") [chr " "] [SLASH]); auto.
      repeat constructor.
    + apply not_br_tag_by_match. vm_compute. reflexivity.
    + vm_compute. reflexivity.
    + vm_compute. reflexivity.
Qed.

Lemma C4_normalizer_contract_witness :
  br_subst (pystr "a<br>b") (pystr "a" ++ [NEWLINE] ++ pystr "b") /\
  preprocess_cell_content (Some (pystr "a<br>b"))
  = strip (pystr "a" ++ [NEWLINE] ++ pystr "b").
Proof.
  assert (H : br_subst (pystr "a<br>b") (pystr "a" ++ [NEWLINE] ++ pystr "b")).
  { apply br_subst_char.
    - apply re_match_br_none. vm_compute. reflexivity.
    - apply (br_subst_tag (pystr "<br>") (pystr "b") (pystr "b")).
      + apply (br_tag_intro (chr "b") (chr "r") [] []); auto. constructor.
      + apply br_subst_char.
        * apply re_match_br_none. vm_compute. reflexivity.
        * apply br_subst_nil. }
  split; [exact H|].
  exact (proj1 (proj1 (proj2 (proj2 C4_normalizer_contract)) _ _ H)).
Defined.

(** C3, as the specification states it, fails on a string with a
    line-break tag: "a<br>b" has no pipe and no backslash and comes back
    as "a", newline, "b", trimmed or not. *)
Lemma C3_counterexample :
  ~ In PIPE (pystr "a<br>b") /\ ~ In BACKSLASH (pystr "a<br>b") /\
  unescape_markdown_cell (preprocess_cell_content (Some (pystr "a<br>b")))
  = pystr "a" ++ [NEWLINE] ++ pystr "b" /\
  unescape_markdown_cell (preprocess_cell_content (Some (pystr "a<br>b")))
  <> strip (pystr "a<br>b") /\
  strip (unescape_markdown_cell (preprocess_cell_content (Some (pystr "a<br>b"))))
  <> strip (pystr "a<br>b").
Proof.
  split; [|split; [|split; [|split]]].
  - vm_compute. intuition discriminate.
  - vm_compute. intuition discriminate.
  - vm_compute. reflexivity.
  - vm_compute. discriminate.
  - vm_compute. discriminate.
Qed.

(** C3, as amended: for every string without pipe, without backslash and
    without line-break tag, normalizing and then unescaping gives the
    string trimmed. *)
Theorem C3_roundtrip_without_tags (s : str) :
  ~ In PIPE s -> ~ In BACKSLASH s -> no_br_tag s ->
  unescape_markdown_cell (preprocess_cell_content (Some s)) = strip s.
Proof.
  intros _ Hb Ht. unfold preprocess_cell_content, unescape_markdown_cell.
  rewrite re_sub_br_id by assumption.
  assert (Hb' : ~ In BACKSLASH (strip s)).
  { intros Hin. apply Hb. now apply strip_incl. }
  rewrite (str_replace_absent BACKSLASH [PIPE]) by assumption.
  now rewrite (str_replace_absent BACKSLASH [BACKSLASH]).
Qed.

Lemma C3_roundtrip_without_tags_witness :
  unescape_markdown_cell (preprocess_cell_content (Some (pystr " a * b ")))
  = strip (pystr " a * b ").
Proof.
  apply (C3_roundtrip_without_tags (pystr " a * b ")).
  - vm_compute. intuition discriminate.
  - vm_compute. intuition discriminate.
  - apply no_lt_no_br_tag. vm_compute. intuition discriminate.
Defined.

End Normalizer.

Section Annotator.

(** A string that starts with [p] and ends with [q] and is long enough
    for both is [p], a middle part and [q]. *)
Lemma wrapped_decompose (p q value : str) :
  startswith p value = true -> endswith q value = true ->
  length p + length q <= length value ->
  exists mid, value = p ++ mid ++ q.
Proof.
  intros Hs He Hl.
  apply startswith_spec in Hs. apply endswith_spec in He.
  destruct Hs as [r ->]. destruct He as [r' E].
  apply app_eq_app in E.
  destruct E as [l [[-> ->] | [-> ->]]].
  - rewrite !length_app in Hl.
    assert (l = []) by (destruct l; simpl in *; [reflexivity | lia]).
    subst l. exists []. now rewrite !app_nil_r.
  - now exists l.
Qed.

Lemma bold_test value :
  startswith [STAR; STAR] value && endswith [STAR; STAR] value
  && (4 <? length value) = true <-> bold_marked value.
Proof.
  unfold bold_marked. now rewrite !andb_true_iff, Nat.ltb_lt, and_assoc.
Qed.

Lemma italic_test value :
  (startswith [STAR] value && endswith [STAR] value
   || startswith [UNDERSCORE] value && endswith [UNDERSCORE] value)
  && (2 <? length value) = true <-> italic_marked value.
Proof.
  unfold italic_marked.
  now rewrite andb_true_iff, orb_true_iff, !andb_true_iff, Nat.ltb_lt.
Qed.

(** C8: a text that starts and ends with two asterisks and is longer
    than 4 is bold, its text the part between the markers, trimmed;
    otherwise a text that starts and ends with an asterisk, or starts and
    ends with an underscore, and is longer than 2 is italic, its text the
    part between the markers, trimmed; otherwise the text is returned as
    it is, with no style.  No text is both bold and italic.  "**bold**"
    gives bold "bold", "*it*" and "_it_" give italic "it", and "plain"
    is left unstyled. *)
Theorem C8_annotator_contract :
  (forall value,
     bold_marked value ->
     exists mid,
       value = [STAR; STAR] ++ mid ++ [STAR; STAR] /\
       apply_cell_formatting value = (strip mid, Some BOLD)) /\
  (forall value,
     ~ bold_marked value -> italic_marked value ->
     exists m mid,
       (m = STAR \/ m = UNDERSCORE) /\ value = [m] ++ mid ++ [m] /\
       apply_cell_formatting value = (strip mid, Some ITALIC)) /\
  (forall value,
     ~ bold_marked value -> ~ italic_marked value ->
     apply_cell_formatting value = (value, None)) /\
  (forall value,
     snd (apply_cell_formatting value) = None \/
     snd (apply_cell_formatting value) = Some BOLD \/
     snd (apply_cell_formatting value) = Some ITALIC) /\
  apply_cell_formatting (pystr "**bold**") = (pystr "bold", Some BOLD) /\
  apply_cell_formatting (pystr "*it*") = (pystr "it", Some ITALIC) /\
  apply_cell_formatting (pystr "_it_") = (pystr "it", Some ITALIC) /\
  apply_cell_formatting (pystr "plain") = (pystr "plain", None).
Proof.
  split; [|split; [|split; [|split]]].
  - intros value Hb. pose proof Hb as (Hs & He & Hl).
    destruct (wrapped_decompose [STAR; STAR] [STAR; STAR] value Hs He) as [mid E].
    { simpl. lia. }
    exists mid. split; [exact E|].
    unfold apply_cell_formatting. rewrite (proj2 (bold_test value) Hb).
    rewrite E at 1.
    assert (Hm : slice ([STAR; STAR] ++ mid ++ [STAR; STAR]) 2 (-2) = mid)
      by (apply (slice_middle [STAR; STAR] mid [STAR; STAR]); discriminate).
    now rewrite Hm.
  - intros value Hnb Hi.
    unfold apply_cell_formatting.
    destruct (startswith [STAR; STAR] value && endswith [STAR; STAR] value
              && (4 <? length value)) eqn:Eb.
    { exfalso. apply Hnb. now apply bold_test. }
    rewrite (proj2 (italic_test value) Hi).
    destruct Hi as [[[Hs He] | [Hs He]] Hl].
    + destruct (wrapped_decompose [STAR] [STAR] value Hs He) as [mid E].
      { simpl. lia. }
      exists STAR, mid. split; [now left|]. split; [exact E|].
      rewrite E at 1.
      assert (Hm : slice ([STAR] ++ mid ++ [STAR]) 1 (-1) = mid)
        by (apply (slice_middle [STAR] mid [STAR]); discriminate).
      now rewrite Hm.
    + destruct (wrapped_decompose [UNDERSCORE] [UNDERSCORE] value Hs He) as [mid E].
      { simpl. lia. }
      exists UNDERSCORE, mid. split; [now right|]. split; [exact E|].
      rewrite E at 1.
      assert (Hm : slice ([UNDERSCORE] ++ mid ++ [UNDERSCORE]) 1 (-1) = mid)
        by (apply (slice_middle [UNDERSCORE] mid [UNDERSCORE]); discriminate).
      now rewrite Hm.
  - intros value Hnb Hni. unfold apply_cell_formatting.
    destruct (startswith [STAR; STAR] value && endswith [STAR; STAR] value
              && (4 <? length value)) eqn:Eb.
    { exfalso. apply Hnb. now apply bold_test. }
    destruct ((startswith [STAR] value && endswith [STAR] value
               || startswith [UNDERSCORE] value && endswith [UNDERSCORE] value)
              && (2 <? length value)) eqn:Ei.
    { exfalso. apply Hni. now apply italic_test. }
    reflexivity.
  - intros value. unfold apply_cell_formatting.
    destruct (_ && _ && _); [right; now left|].
    destruct ((_ || _) && _); [right; now right | now left].
  - vm_compute. auto.
Qed.

Lemma C8_annotator_contract_witness :
  bold_marked (pystr "**bold**") /\
  exists mid,
    pystr "**bold**" = [STAR; STAR] ++ mid ++ [STAR; STAR] /\
    apply_cell_formatting (pystr "**bold**") = (strip mid, Some BOLD).
Proof.
  assert (H : bold_marked (pystr "**bold**")).
  { repeat split; simpl; lia. }
  split; [exact H|].
  exact (proj1 C8_annotator_contract (pystr "**bold**") H).
Defined.

End Annotator.

(** ** Edge cases *)

Section EdgeCases.

(** A line that is one pipe is a row with one empty cell, and a
    separator. *)
Example single_pipe_row :
  parse_markdown_table_line (pystr "|") = Some [EMPTY] /\
  is_separator_line (pystr "|") = true.
Proof. vm_compute. auto. Qed.

(** A pipe after two backslashes is still escaped for the split: the
    look-behind sees the second backslash.  The unescaper then turns the
    backslash and the pipe into a pipe and leaves the first backslash. *)
Example pipe_after_two_backslashes :
  parse_markdown_table_line (pystr "| a | b\\|c | d |")
  = Some [pystr "a"; pystr "b\|c"; pystr "d"].
Proof. vm_compute. reflexivity. Qed.

(** Four asterisks are too short for bold and are italic, with the text
    of two asterisks. *)
Example four_asterisks :
  apply_cell_formatting (pystr "****") = (pystr "**", Some ITALIC).
Proof. vm_compute. reflexivity. Qed.

(** Mixed markers are no markers. *)
Example mixed_markers :
  apply_cell_formatting (pystr "*a_") = (pystr "*a_", None).
Proof. vm_compute. reflexivity. Qed.

(** A tag at either end becomes a newline, which the final trim removes. *)
Example outer_tag_trimmed :
  preprocess_cell_content (Some (pystr "<br>a<BR >")) = pystr "a".
Proof. vm_compute. reflexivity. Qed.

(** After the table has ended, later rows are not read. *)
Example only_first_table :
  res_rows (parse_markdown_table
              (map pystr ["| H |"; "|---|"; "| a |"; "some text"; "| b |"]%string))
  = [[pystr "a"]].
Proof. vm_compute. reflexivity. Qed.

End EdgeCases.

(** ** More on trimming and on the unescaper *)

Section Trimming.

Lemma lstrip_all_space l : forall s, all_space l -> lstrip (l ++ s) = lstrip s.
Proof.
  induction l as [|x l IH]; intros s H; [reflexivity|].
  inversion H as [|? ? Hx Hl]; subst. simpl. rewrite Hx. now apply IH.
Qed.

Lemma lstrip_id s :
  (forall c r, s = c :: r -> isspace c = false) -> lstrip s = s.
Proof.
  intros H. destruct s as [|c r]; [reflexivity|].
  simpl. now rewrite (H c r eq_refl).
Qed.

Lemma all_space_rev s : all_space s -> all_space (rev s).
Proof.
  unfold all_space. rewrite !Forall_forall. intros H c Hc.
  apply H. now apply in_rev.
Qed.

Lemma rstrip_all_space r s : all_space r -> rstrip (s ++ r) = rstrip s.
Proof.
  intros H. unfold rstrip. rewrite rev_app_distr.
  now rewrite lstrip_all_space by now apply all_space_rev.
Qed.

Lemma rstrip_id s :
  (forall c r, s = r ++ [c] -> isspace c = false) -> rstrip s = s.
Proof.
  intros H. unfold rstrip. rewrite lstrip_id; [apply rev_involutive|].
  intros c r E. apply (H c (rev r)).
  apply (f_equal (@rev char)) in E. rewrite rev_involutive in E.
  now rewrite E.
Qed.

(** The trimmed string is the only one that [trimmed] describes. *)
Lemma trimmed_strip s t : trimmed s t -> strip s = t.
Proof.
  intros (l & r & -> & Hl & Hr & Hf & Hb). unfold strip.
  rewrite lstrip_all_space by assumption.
  destruct t as [|c t'].
  - simpl. rewrite <- (app_nil_r r), lstrip_all_space by assumption. reflexivity.
  - rewrite lstrip_id.
    + rewrite rstrip_all_space by assumption. now apply rstrip_id.
    + intros c' r' E. simpl in E. injection E as <- _. now apply (Hf c t').
Qed.

Lemma strip_id t : no_outer_space t -> strip t = t.
Proof.
  intros H. apply trimmed_strip. exists [], [].
  rewrite app_nil_r. repeat split; try constructor; apply H.
Qed.

Lemma strip_all_space s : all_space s -> strip s = [].
Proof.
  intros H. apply trimmed_strip. exists s, [].
  rewrite app_nil_r. repeat split; try assumption; try constructor.
  - discriminate.
  - intros c r E. destruct r; discriminate.
Qed.

Lemma strip_no_outer_space s : no_outer_space (strip s).
Proof. destruct (strip_spec s) as (l & r & _ & _ & _ & H). exact H. Qed.


Lemma all_space_app a b : all_space a -> all_space b -> all_space (a ++ b).
Proof. intros Ha Hb. apply Forall_app. now split. Qed.

(** Whitespace around a string does not change what is trimmed from it. *)
Lemma strip_padded s s' : padded s s' -> strip s' = strip s.
Proof.
  intros (l & r & -> & Hl & Hr).
  destruct (strip_spec s) as (l0 & r0 & E & Hl0 & Hr0 & Hn).
  apply trimmed_strip. exists (l ++ l0), (r0 ++ r).
  repeat split; try (now apply all_space_app); try apply Hn.
  rewrite E at 1. now rewrite <- !app_assoc.
Qed.

End Trimming.

Section Unescaper.

Lemma escape_cell_cons c s :
  escape_cell (c :: s) = escape_char c ++ escape_cell s.
Proof. reflexivity. Qed.

(** An escaped string does not start with a pipe. *)
Lemma escape_cell_head s : forall c r, escape_cell s = c :: r -> c <> PIPE.
Proof.
  destruct s as [|x s]; intros c r E; [discriminate|].
  rewrite escape_cell_cons in E. unfold escape_char in E.
  destruct (N.eqb_spec x BACKSLASH) as [->|Hb].
  - injection E as <- _. discriminate.
  - destruct (N.eqb_spec x PIPE) as [->|Hp].
    + injection E as <- _. discriminate.
    + injection E as <- _. exact Hp.
Qed.

(** The first replacement takes the backslash off every escaped pipe and
    leaves the doubled backslashes. *)
Lemma unescape_pipes_escape s :
  str_replace [BACKSLASH; PIPE] [PIPE] (escape_cell s) = double_backslashes s.
Proof.
  unfold str_replace. induction s as [|c s IH]; [reflexivity|].
  rewrite escape_cell_cons. unfold escape_char.
  change (double_backslashes (c :: s))
    with ((if (c =? BACKSLASH)%N then [BACKSLASH; BACKSLASH] else [c])
          ++ double_backslashes s).
  destruct (N.eqb_spec c BACKSLASH) as [->|Hb].
  - pose proof (escape_cell_head s) as Hh.
    destruct (escape_cell s) as [|x r] eqn:E.
    + simpl in *. now rewrite <- IH.
    + assert (Hx : x <> PIPE) by (apply (Hh x r); reflexivity).
      simpl app. cbn [replace_from startswith].
      replace (BACKSLASH =? BACKSLASH)%N with true by reflexivity.
      replace (PIPE =? BACKSLASH)%N with false by reflexivity.
      cbn [andb].
      replace (PIPE =? x)%N with false
        by (symmetry; apply N.eqb_neq; congruence).
      cbn [andb]. now rewrite <- IH.
  - destruct (N.eqb_spec c PIPE) as [->|Hp].
    + simpl app. cbn [replace_from startswith length Nat.sub].
      replace (BACKSLASH =? BACKSLASH)%N with true by reflexivity.
      replace (PIPE =? PIPE)%N with true by reflexivity.
      cbn [andb app]. now rewrite <- IH.
    + simpl app. cbn [replace_from startswith].
      replace (BACKSLASH =? c)%N with false
        by (symmetry; apply N.eqb_neq; congruence).
      cbn [andb]. now rewrite <- IH.
Qed.

(** The second replacement halves the doubled backslashes. *)
Lemma unescape_backslashes_double s :
  str_replace [BACKSLASH; BACKSLASH] [BACKSLASH] (double_backslashes s) = s.
Proof.
  unfold str_replace. induction s as [|c s IH]; [reflexivity|].
  change (double_backslashes (c :: s))
    with ((if (c =? BACKSLASH)%N then [BACKSLASH; BACKSLASH] else [c])
          ++ double_backslashes s).
  destruct (N.eqb_spec c BACKSLASH) as [->|Hb].
  - simpl app. cbn [replace_from startswith length Nat.sub].
    replace (BACKSLASH =? BACKSLASH)%N with true by reflexivity.
    cbn [andb app]. now rewrite IH.
  - simpl app. cbn [replace_from startswith].
    replace (BACKSLASH =? c)%N with false
      by (symmetry; apply N.eqb_neq; congruence).
    cbn [andb]. now rewrite IH.
Qed.

(** X3: the unescaper reverses the escaping: for every text, with pipes
    and backslashes anywhere, writing a backslash before each backslash and
    each pipe and unescaping gives the text back. *)
Theorem unescape_escape (s : str) :
  unescape_markdown_cell (escape_cell s) = s.
Proof.
  unfold unescape_markdown_cell.
  now rewrite unescape_pipes_escape, unescape_backslashes_double.
Qed.

End Unescaper.

(** ** Writing a row and reading it back *)

Section RoundTrip.

Lemma no_outer_space_b_spec t : no_outer_space_b t = true -> no_outer_space t.
Proof.
  destruct t as [|c t]; intros H.
  - split; intros x r E; [discriminate | destruct r; discriminate].
  - unfold no_outer_space_b in H. apply andb_true_iff in H.
    destruct H as [H1 H2]. apply negb_true_iff in H1, H2. split.
    + intros x r E. now injection E as <- _.
    + intros x r E. rewrite E in H2. now rewrite last_last in H2.
Qed.

Lemma pipes_escaped_cons c x :
  c <> PIPE -> pipes_escaped x -> pipes_escaped (c :: x).
Proof.
  intros Hc Hx a b E. destruct a as [|y a]; simpl in E.
  - injection E as -> _. congruence.
  - injection E as <- ->. apply ends_with_backslash_cons. right.
    now apply (Hx a b).
Qed.

Lemma pipes_escaped_snoc c x :
  c <> PIPE -> pipes_escaped x -> pipes_escaped (x ++ [c]).
Proof.
  intros Hc Hx a b E.
  destruct (exists_last (l := PIPE :: b)) as (b' & y & Eb); [discriminate|].
  rewrite Eb, app_assoc in E. apply app_inj_tail in E. destruct E as [E <-].
  destruct b' as [|z b']; simpl in Eb.
  - injection Eb as Ey _. congruence.
  - injection Eb as <- ->. apply (Hx a b'). exact E.
Qed.

Lemma pipes_escaped_escape s : pipes_escaped (escape_cell s).
Proof.
  induction s as [|x s IH]; intros a b E.
  - destruct a; discriminate.
  - rewrite escape_cell_cons in E. unfold escape_char in E.
    destruct (N.eqb_spec x BACKSLASH) as [->|Hb];
      [|destruct (N.eqb_spec x PIPE) as [->|Hp]]; simpl in E.
    + destruct a as [|y1 [|y2 a]]; simpl in E; try discriminate.
      injection E as <- <- E.
      apply ends_with_backslash_cons. right.
      apply ends_with_backslash_cons. right. now apply (IH a b).
    + destruct a as [|y1 [|y2 a]]; simpl in E; try discriminate.
      * injection E as <- _. now exists [].
      * injection E as <- <- E.
        apply ends_with_backslash_cons. right.
        apply ends_with_backslash_cons. right. now apply (IH a b).
    + destruct a as [|y a]; simpl in E.
      * injection E as -> _. congruence.
      * injection E as <- E.
        apply ends_with_backslash_cons. right. now apply (IH a b).
Qed.

Lemma escape_cell_app s t :
  escape_cell (s ++ t) = escape_cell s ++ escape_cell t.
Proof. apply flat_map_app. Qed.

Lemma escape_no_outer_space s :
  no_outer_space s -> no_outer_space (escape_cell s).
Proof.
  intros [Hf Hl]. split.
  - intros c r E. destruct s as [|x s]; [discriminate|].
    specialize (Hf x s eq_refl).
    rewrite escape_cell_cons in E. unfold escape_char in E.
    destruct (N.eqb_spec x BACKSLASH) as [->|Hb];
      [|destruct (N.eqb_spec x PIPE) as [->|Hp]];
      injection E as <- _; assumption || reflexivity.
  - intros c r E.
    destruct s as [|x0 s0]; [destruct r; discriminate|].
    destruct (exists_last (l := x0 :: s0)) as (s & x & Es); [discriminate|].
    rewrite Es in *. specialize (Hl x s eq_refl).
    rewrite escape_cell_app in E. simpl in E. rewrite app_nil_r in E.
    unfold escape_char in E.
    destruct (N.eqb_spec x BACKSLASH) as [->|Hb];
      [|destruct (N.eqb_spec x PIPE) as [->|Hp]].
    + change [BACKSLASH; BACKSLASH] with ([BACKSLASH] ++ [BACKSLASH]) in E.
      rewrite app_assoc in E. apply app_inj_tail in E. now destruct E as [_ <-].
    + change [BACKSLASH; PIPE] with ([BACKSLASH] ++ [PIPE]) in E.
      rewrite app_assoc in E. apply app_inj_tail in E. now destruct E as [_ <-].
    + apply app_inj_tail in E. now destruct E as [_ <-].
Qed.

Lemma padded_cell_pipes_escaped c : pipes_escaped (padded_cell c).
Proof.
  unfold padded_cell.
  change (SPACE :: escape_cell c ++ [SPACE])
    with ((SPACE :: escape_cell c) ++ [SPACE]).
  apply pipes_escaped_snoc; [discriminate|].
  apply pipes_escaped_cons; [discriminate|]. apply pipes_escaped_escape.
Qed.

Lemma padded_cell_no_backslash_end c : ~ ends_with_backslash (padded_cell c).
Proof.
  intros [a E]. unfold padded_cell in E.
  change (SPACE :: escape_cell c ++ [SPACE])
    with ((SPACE :: escape_cell c) ++ [SPACE]) in E.
  apply app_inj_tail in E. destruct E as [_ E]. discriminate.
Qed.

Lemma Forall_removelast {A} (P : A -> Prop) l :
  Forall P l -> Forall P (removelast l).
Proof.
  induction 1 as [|x l Hx Hl IH]; [constructor|].
  destruct l as [|y l]; [constructor|].
  change (removelast (x :: y :: l)) with (x :: removelast (y :: l)).
  now constructor.
Qed.

(** The pieces of a written row are its padded cells. *)
Lemma split_render cells :
  cells <> [] ->
  split_unescaped_pipes (join_pipes (map padded_cell cells))
  = map padded_cell cells.
Proof.
  intros Hne. apply split_unescaped_pipes_spec. repeat split.
  - destruct cells; [congruence | discriminate].
  - apply Forall_forall. intros seg Hin. apply in_map_iff in Hin.
    destruct Hin as (c & <- & _). apply padded_cell_pipes_escaped.
  - apply Forall_removelast, Forall_forall. intros seg Hin.
    apply in_map_iff in Hin. destruct Hin as (c & <- & _).
    apply padded_cell_no_backslash_end.
Qed.

(** A padded, escaped cell comes back through trim, unescaper and
    normalizer. *)
Lemma cell_round_trip c :
  plain_cell c ->
  preprocess_cell_content
    (Some (unescape_markdown_cell (strip (padded_cell c)))) = c.
Proof.
  intros [Hn Ht].
  assert (Hs : strip (padded_cell c) = escape_cell c).
  { apply trimmed_strip. exists [SPACE], [SPACE].
    repeat split; try (repeat constructor); try apply escape_no_outer_space;
      assumption. }
  rewrite Hs. unfold unescape_markdown_cell.
  rewrite unescape_pipes_escape, unescape_backslashes_double.
  unfold preprocess_cell_content.
  rewrite re_sub_br_id by assumption. now apply strip_id.
Qed.

Lemma render_row_no_outer_space cells : no_outer_space (render_row cells).
Proof.
  unfold render_row. split.
  - intros c r E. now injection E as <- _.
  - intros c r E.
    change (PIPE :: join_pipes (map padded_cell cells) ++ [PIPE])
      with ((PIPE :: join_pipes (map padded_cell cells)) ++ [PIPE]) in E.
    apply app_inj_tail in E. now destruct E as [_ <-].
Qed.

Lemma parse_render_row cells :
  cells <> [] -> Forall plain_cell cells ->
  parse_markdown_table_line (render_row cells) = Some cells.
Proof.
  intros Hne Hc. rewrite parse_line_unfold.
  rewrite (strip_id _ (render_row_no_outer_space cells)).
  assert (Ho : outer_pipes_stripped (render_row cells)
                 (join_pipes (map padded_cell cells))) by now right.
  apply outer_pipes_stripped_inv in Ho. destruct Ho as [Hp Hs].
  apply pipe_delimited_spec in Hp. rewrite Hp, Hs.
  rewrite split_render by assumption. f_equal.
  rewrite map_map. rewrite <- (map_id cells) at 2.
  apply map_ext_in. intros c Hin. apply cell_round_trip.
  now apply (proj1 (Forall_forall _ _) Hc).
Qed.

(** X4: the tokenizer reads back a written row: for at least one cell,
    each without whitespace at its ends and without line-break tag
    (pipes and backslashes allowed), the row with the cells escaped,
    padded with a space and separated by pipes is tokenized into exactly
    these cells. *)
Theorem tokenize_rendered_row (cells : list str) :
  cells <> [] -> Forall plain_cell cells ->
  parse_markdown_table_line (render_row cells) = Some cells.
Proof. exact (parse_render_row cells). Qed.

Lemma tokenize_rendered_row_witness :
  parse_markdown_table_line
    (render_row [pystr "a|b"; pystr "c\"; EMPTY; pystr "**x y**"])
  = Some [pystr "a|b"; pystr "c\"; EMPTY; pystr "**x y**"].
Proof.
  apply tokenize_rendered_row; [discriminate|].
  repeat constructor;
    try (apply no_outer_space_b_spec; vm_compute; reflexivity);
    apply no_lt_no_br_tag; vm_compute; intuition discriminate.
Defined.

End RoundTrip.

(** ** More on the table extractor *)

Section ExtractorMore.

Lemma leading_rows_render rows :
  Forall (fun row => row <> [] /\ Forall plain_cell row) rows ->
  leading_rows (map render_row rows) = rows.
Proof.
  induction 1 as [|row rows [Hne Hc] _ IH]; simpl; [reflexivity|].
  rewrite parse_render_row by assumption. now rewrite IH.
Qed.

(** X5: a written table is read back: for a header of at least one cell
    and data rows of at least one cell each, all cells without
    whitespace at their ends and without line-break tag, the lines
    "header row, dash row, data rows" are extracted with success into
    exactly this header and these rows, whatever the widths of the rows. *)
Theorem extract_rendered_table (header : list str) (rows : list (list str)) :
  header <> [] -> Forall plain_cell header ->
  Forall (fun row => row <> [] /\ Forall plain_cell row) rows ->
  res_headers (parse_markdown_table (render_table header rows)) = header /\
  res_rows (parse_markdown_table (render_table header rows)) = rows /\
  res_success (parse_markdown_table (render_table header rows)) = true.
Proof.
  intros Hne Hh Hrows. unfold render_table.
  assert (Hsep : is_separator_line (pystr "|---|") = true)
    by (vm_compute; reflexivity).
  pose proof (parse_header_then_separator [] (render_row header) header []
                (pystr "|---|") (map render_row rows) (Forall_nil _)
                (parse_render_row header Hne Hh) (Forall_nil _) Hsep) as E.
  cbn [app] in E. rewrite E.
  cbn [res_headers res_rows res_success].
  now rewrite leading_rows_render.
Qed.

Lemma extract_rendered_table_witness :
  res_headers (parse_markdown_table
                 (render_table [pystr "a|b"; pystr "c"]
                               [[pystr "1"; EMPTY]; [pystr "x\"]]))
  = [pystr "a|b"; pystr "c"] /\
  res_rows (parse_markdown_table
              (render_table [pystr "a|b"; pystr "c"]
                            [[pystr "1"; EMPTY]; [pystr "x\"]]))
  = [[pystr "1"; EMPTY]; [pystr "x\"]] /\
  res_success (parse_markdown_table
                 (render_table [pystr "a|b"; pystr "c"]
                               [[pystr "1"; EMPTY]; [pystr "x\"]]))
  = true.
Proof.
  apply extract_rendered_table; [discriminate | |];
    repeat constructor; try discriminate;
    try (apply no_outer_space_b_spec; vm_compute; reflexivity);
    apply no_lt_no_br_tag; vm_compute; intuition discriminate.
Defined.

(** The two line functions read the trimmed line only. *)
Lemma parse_line_strip a b :
  strip a = strip b ->
  parse_markdown_table_line a = parse_markdown_table_line b.
Proof. intros H. rewrite !parse_line_unfold. now rewrite H. Qed.

Lemma is_separator_strip a b :
  strip a = strip b -> is_separator_line a = is_separator_line b.
Proof. intros H. rewrite !is_separator_unfold. now rewrite H. Qed.

Lemma loop_body_strip i a b st :
  strip a = strip b -> loop_body i a st = loop_body i b st.
Proof.
  intros H. unfold loop_body.
  now rewrite (is_separator_strip a b H), (parse_line_strip a b H).
Qed.

Lemma scan_strip lines lines' :
  Forall2 (fun a b => strip a = strip b) lines lines' ->
  forall i st, scan i lines st = scan i lines' st.
Proof.
  induction 1 as [|a b lines lines' Hab _ IH]; intros i st; simpl.
  - reflexivity.
  - rewrite (loop_body_strip i a b st Hab).
    destruct (loop_body i b st); [apply IH | reflexivity | reflexivity].
Qed.

(** X1: whitespace at the ends of the lines is ignored: when every line
    of an input is a line of another with whitespace (spaces, tabs, the
    newline that readlines keeps, ...) added before and after, both
    inputs give the same result and the same messages. *)
Theorem padding_ignored (lines lines' : list str) :
  Forall2 padded lines lines' ->
  parse_markdown_table lines' = parse_markdown_table lines.
Proof.
  intros H. unfold parse_markdown_table.
  rewrite (scan_strip lines' lines); [reflexivity|].
  induction H as [|a b lines lines' Hab _ IH]; constructor; [|exact IH].
  now apply strip_padded.
Qed.

Lemma padding_ignored_witness :
  parse_markdown_table
    (map pystr ["  | H |"; "|---|   "; " | a | "]%string ++ [[NEWLINE]])
  = parse_markdown_table
      (map pystr ["| H |"; "|---|"; "| a |"]%string ++ [EMPTY]).
Proof.
  apply padding_ignored. simpl. repeat constructor.
  - exists (pystr "  "), []. repeat constructor.
  - exists [], (pystr "   "). repeat constructor.
  - exists (pystr " "), (pystr " "). repeat constructor.
  - exists [], [NEWLINE]. repeat constructor.
Defined.

Lemma leading_rows_stop body stop rest rest' :
  not_row stop ->
  leading_rows (body ++ stop :: rest) = leading_rows (body ++ stop :: rest').
Proof.
  intros Hs. induction body as [|l body IH]; simpl.
  - now rewrite Hs.
  - destruct (parse_markdown_table_line l); [now rewrite IH | reflexivity].
Qed.

Lemma row_messages_stop expected body stop rest rest' :
  not_row stop ->
  forall i, row_messages i expected (body ++ stop :: rest)
            = row_messages i expected (body ++ stop :: rest').
Proof.
  intros Hs. induction body as [|l body IH]; intros i; simpl.
  - now rewrite Hs.
  - destruct (parse_markdown_table_line l); [now rewrite IH | reflexivity].
Qed.

(** X2: only the first table is read: once the separator is found, the
    first line that is not a row ends the table, and no line after it
    has any effect on the result or on what is printed. *)
Theorem lines_after_table_ignored
    (pre : list str) (h : str) (hcells : list str) (mid : list str)
    (sep : str) (body : list str) (stop : str) (rest rest' : list str) :
  Forall not_row pre -> row_cells h hcells -> Forall not_row mid ->
  is_separator_line sep = true -> not_row stop ->
  parse_markdown_table (pre ++ h :: mid ++ sep :: body ++ stop :: rest)
  = parse_markdown_table (pre ++ h :: mid ++ sep :: body ++ stop :: rest').
Proof.
  intros Hpre Hh Hmid Hs Hstop.
  rewrite !(parse_header_then_separator pre h hcells mid sep) by assumption.
  rewrite (leading_rows_stop body stop rest rest') by assumption.
  now rewrite (row_messages_stop (length hcells) body stop rest rest').
Qed.

Lemma lines_after_table_ignored_witness :
  parse_markdown_table
    (map pystr ["| H |"; "|---|"; "| a |"; "text"; "| K |"; "|---|"; "| b |"]%string)
  = parse_markdown_table (map pystr ["| H |"; "|---|"; "| a |"; "text"]%string).
Proof.
  apply (lines_after_table_ignored [] (pystr "| H |") [pystr "H"] []
           (pystr "|---|") [pystr "| a |"] (pystr "text")
           (map pystr ["| K |"; "|---|"; "| b |"]%string) []);
    try constructor; vm_compute; reflexivity.
Defined.

Lemma same_table_refl r : same_table r r.
Proof. repeat split. Qed.

(** X6: lines that are not rows do not count before the separator:
    taking them away before the header, or between the header and what
    follows it, leaves headers, rows and success as they are. *)
Theorem skipped_lines_ignored :
  (forall pre lines,
     Forall not_row pre ->
     same_table (parse_markdown_table (pre ++ lines))
                (parse_markdown_table lines)) /\
  (forall h hcells mid tail,
     row_cells h hcells -> Forall not_row mid ->
     same_table (parse_markdown_table (h :: mid ++ tail))
                (parse_markdown_table (h :: tail))).
Proof.
  split.
  - intros pre lines Hpre.
    destruct (parse_extracts lines)
      as [lines H | p h cells mid Hp Hh Hmid
          | p h hcells mid r rcells rest Hp Hh Hmid Hr Hs
          | p h hcells mid sep rest Hp Hh Hmid Hs].
    + rewrite parse_no_header; [apply same_table_refl|].
      apply Forall_app. now split.
    + rewrite app_assoc.
      rewrite (parse_no_separator (pre ++ p) h cells mid);
        [repeat split | apply Forall_app; now split | assumption..].
    + rewrite app_assoc.
      rewrite (parse_row_before_separator (pre ++ p) h hcells mid r rcells rest);
        [repeat split | apply Forall_app; now split | assumption..].
    + rewrite app_assoc.
      rewrite (parse_header_then_separator (pre ++ p) h hcells mid sep rest);
        [repeat split | apply Forall_app; now split | assumption..].
  - intros h hcells mid tail Hh Hmid.
    destruct (first_row tail) as [H | (mid2 & x & xcells & rest & -> & Hm2 & Hx)];
      rewrite ?app_assoc;
      repeat match goal with
             | |- context [parse_markdown_table (h :: ?l)] =>
                 change (parse_markdown_table (h :: l))
                   with (parse_markdown_table ([] ++ h :: l))
             end.
    + rewrite (parse_no_separator [] h hcells (mid ++ tail));
        [|constructor | assumption | apply Forall_app; now split].
      rewrite (parse_no_separator [] h hcells tail);
        [repeat split | constructor | assumption..].
    + destruct (is_separator_line x) eqn:Ex.
      * rewrite (parse_header_then_separator [] h hcells (mid ++ mid2) x rest);
          [|constructor | assumption | apply Forall_app; now split | assumption].
        rewrite (parse_header_then_separator [] h hcells mid2 x rest);
          [repeat split | constructor | assumption..].
      * rewrite (parse_row_before_separator [] h hcells (mid ++ mid2) x xcells rest);
          [|constructor | assumption | apply Forall_app; now split | assumption..].
        rewrite (parse_row_before_separator [] h hcells mid2 x xcells rest);
          [repeat split | constructor | assumption..].
Qed.

Lemma skipped_lines_ignored_witness :
  same_table
    (parse_markdown_table
       (map pystr ["# Title"; "some text"; "| H |"; "|---|"; "| a |"]%string))
    (parse_markdown_table (map pystr ["| H |"; "|---|"; "| a |"]%string)).
Proof.
  apply (proj1 skipped_lines_ignored (map pystr ["# Title"; "some text"]%string)).
  repeat constructor.
Defined.

End ExtractorMore.

(** ** What every result and every state of the scan satisfy *)

Section Invariants.

(** The tokenizer returns at least one cell and trimmed cells only. *)
Lemma row_cells_shape line cells :
  row_cells line cells -> cells <> [] /\ Forall no_outer_space cells.
Proof.
  unfold row_cells. rewrite parse_line_unfold.
  destruct (_ && _); [|discriminate]. intros H. injection H as <-. split.
  - unfold split_unescaped_pipes.
    pose proof (split_from_nonempty (slice (strip line) 1 (-1)) None) as Hn.
    destruct (split_from None _); [congruence | discriminate].
  - apply Forall_forall. intros c Hin. apply in_map_iff in Hin.
    destruct Hin as (seg & <- & _). unfold preprocess_cell_content.
    apply strip_no_outer_space.
Qed.

Lemma leading_rows_Forall (P : list str -> Prop) body :
  (forall line cells, row_cells line cells -> P cells) ->
  Forall P (leading_rows body).
Proof.
  intros HP. induction body as [|l body IH]; simpl; [constructor|].
  destruct (parse_markdown_table_line l) as [cells|] eqn:E; [|constructor].
  constructor; [now apply (HP l) | exact IH].
Qed.

(** X7: the shape of every result: a successful extraction has at least
    one header, every data row has at least one cell, and no cell of the
    headers or of the rows starts or ends with whitespace. *)
Theorem result_cells_shape (lines : list str) :
  (res_success (parse_markdown_table lines) = true ->
   res_headers (parse_markdown_table lines) <> []) /\
  Forall (fun row => row <> []) (res_rows (parse_markdown_table lines)) /\
  Forall no_outer_space (res_headers (parse_markdown_table lines)) /\
  Forall (Forall no_outer_space) (res_rows (parse_markdown_table lines)).
Proof.
  destruct (parse_extracts lines)
    as [lines H | p h cells mid Hp Hh Hmid
        | p h hcells mid r rcells rest Hp Hh Hmid Hr Hs
        | p h hcells mid sep rest Hp Hh Hmid Hs];
    cbn [res_success res_headers res_rows];
    try (destruct (row_cells_shape _ _ Hh) as [Hne Hsp]).
  - repeat split; try discriminate; constructor.
  - repeat split; try discriminate; try constructor; assumption.
  - repeat split; try discriminate; try constructor; assumption.
  - split; [intros _; exact Hne|]. split; [|split; [exact Hsp|]].
    + apply leading_rows_Forall. intros l c Hc. now apply (row_cells_shape l).
    + apply leading_rows_Forall. intros l c Hc. now apply (row_cells_shape l).
Qed.

Lemma result_cells_shape_witness :
  res_headers (parse_markdown_table wide_row_lines) <> [].
Proof.
  apply (proj1 (result_cells_shape wide_row_lines)).
  vm_compute. reflexivity.
Defined.

Lemma row_messages_no_data_warning expected body : forall i,
  ~ In WarnNoDataRows (row_messages i expected body).
Proof.
  induction body as [|l body IH]; intros i; simpl.
  - auto.
  - destruct (parse_markdown_table_line l) as [cells|].
    + intros Hin. apply in_app_or in Hin. destruct Hin as [Hin | Hin].
      * destruct (negb _); simpl in Hin; [destruct Hin as [Hin | []]|];
          [discriminate | contradiction].
      * now apply (IH (S i)).
    + simpl. intros [Hin | []]. discriminate.
Qed.

(** X8: the messages follow the flag: a successful extraction prints no
    error; a failed one prints exactly one, as its last message; and the
    warning of an empty table is printed exactly when the extraction
    succeeds with no data row. *)
Theorem messages_follow_result (lines : list str) :
  (res_success (parse_markdown_table lines) = true ->
   Forall (fun m => is_error m = false)
          (res_printed (parse_markdown_table lines))) /\
  (res_success (parse_markdown_table lines) = false ->
   exists msgs e,
     res_printed (parse_markdown_table lines) = msgs ++ [e] /\
     is_error e = true /\ Forall (fun m => is_error m = false) msgs) /\
  (In WarnNoDataRows (res_printed (parse_markdown_table lines)) <->
   res_success (parse_markdown_table lines) = true /\
   res_rows (parse_markdown_table lines) = []).
Proof.
  destruct (parse_extracts lines)
    as [lines H | p h cells mid Hp Hh Hmid
        | p h hcells mid r rcells rest Hp Hh Hmid Hr Hs
        | p h hcells mid sep rest Hp Hh Hmid Hs];
    cbn [res_success res_printed res_rows].
  - split; [discriminate|]. split.
    + intros _. exists [MsgProcessing], ErrNoHeader. repeat constructor.
    + split; [|intros [? _]; discriminate].
      simpl. intuition discriminate.
  - split; [discriminate|]. split.
    + intros _.
      exists [MsgProcessing; MsgFoundHeader (length p + 1) cells], ErrNoSeparator.
      repeat constructor.
    + split; [|intros [? _]; discriminate].
      simpl. intuition discriminate.
  - split; [discriminate|]. split.
    + intros _.
      exists [MsgProcessing; MsgFoundHeader (length p + 1) hcells],
             (ErrDataBeforeSeparator (length p + length mid + 2)).
      repeat constructor.
    + split; [|intros [? _]; discriminate].
      simpl. intuition discriminate.
  - split; [|split; [discriminate|]].
    + intros _. apply Forall_app. split; [repeat constructor|].
      apply Forall_app. split; [apply row_messages_no_error|].
      destruct (leading_rows rest); repeat constructor.
    + split.
      * intros Hin. split; [reflexivity|].
        destruct (leading_rows rest) as [|row rows]; [reflexivity|].
        exfalso. rewrite app_nil_r in Hin.
        apply in_app_or in Hin. destruct Hin as [Hin | Hin].
        -- simpl in Hin. intuition discriminate.
        -- now apply row_messages_no_data_warning in Hin.
      * intros [_ ->]. apply in_or_app. right. apply in_or_app. right.
        now left.
Qed.

Lemma messages_follow_result_witness :
  exists msgs e,
    res_printed (parse_markdown_table data_before_separator_lines) = msgs ++ [e] /\
    is_error e = true /\ Forall (fun m => is_error m = false) msgs.
Proof.
  apply (proj1 (proj2 (messages_follow_result data_before_separator_lines))).
  vm_compute. reflexivity.
Defined.

Lemma consistent_initial : consistent initial.
Proof. repeat split; auto. Qed.

Lemma loop_body_consistent i line st :
  consistent st ->
  match loop_body i line st with
  | Continue st' | Break st' => consistent st'
  | Return r => res_success r = false
  end.
Proof.
  destruct st as [hs rows hf sf tf out].
  intros (Ht & Hs & Hh & Hr). simpl in *. subst tf.
  unfold loop_body. cbn [header_found separator_found table_found headers
                         data_rows printed print].
  destruct hf, sf; cbn [negb andb];
    try (specialize (Hs eq_refl); discriminate);
    destruct (is_separator_line line);
    destruct (parse_markdown_table_line line) as [cells|];
    try destruct (negb (length cells =? length hs));
    cbn; unfold consistent; cbn;
    repeat split; intros; auto; try discriminate; try congruence.
Qed.

Lemma scan_consistent lines : forall i st st',
  consistent st -> scan i lines st = inl st' -> consistent st'.
Proof.
  induction lines as [|l lines IH]; intros i st st' Hc H; simpl in H.
  - now injection H as <-.
  - pose proof (loop_body_consistent i l st Hc) as Hb.
    destruct (loop_body i l st) as [st1 | st1 | r].
    + now apply (IH (S i) st1).
    + now injection H as <-.
    + discriminate.
Qed.

(** X9: the flags of the scan go together: in every state the loop
    reaches, on any input, [table_found] equals [header_found], the
    separator is found only after a header, there are headers only once
    a header is found and data rows only once the separator is; and a
    [return] inside the loop always reports failure. *)
Theorem scan_keeps_consistent (lines : list str) :
  (forall st, scan 0 lines initial = inl st -> consistent st) /\
  (forall r, scan 0 lines initial = inr r -> res_success r = false).
Proof.
  split.
  - intros st H. exact (scan_consistent lines 0 initial st consistent_initial H).
  - assert (G : forall ls i st r, consistent st ->
                scan i ls st = inr r -> res_success r = false).
    { induction ls as [|l ls IH]; intros i st r Hc H; simpl in H;
        [discriminate|].
      pose proof (loop_body_consistent i l st Hc) as Hb.
      destruct (loop_body i l st) as [st1 | st1 | r1].
      - now apply (IH (S i) st1).
      - discriminate.
      - now injection H as <-. }
    intros r H. exact (G lines 0 initial r consistent_initial H).
Qed.

Lemma scan_keeps_consistent_witness :
  consistent (mkLocals [pystr "H1"] [[pystr "a"; pystr "b"]] true true true
                [MsgProcessing; MsgFoundHeader 1 [pystr "H1"];
                 MsgFoundSeparator 2; WarnRowWidth 3 2 1]).
Proof.
  apply (proj1 (scan_keeps_consistent wide_row_lines)).
  vm_compute. reflexivity.
Defined.

End Invariants.

(** ** More on rows and separators *)

Section RowsMore.

(** The pattern of the separator, character by character. *)
Lemma sep_shape_dash_cell t : sep_shape t <-> dash_cell t.
Proof.
  unfold dash_cell. split.
  - intros (a & b & c & -> & Ha & Hb & Hd & Hc). split.
    + apply Forall_app. split; [exact Ha|]. apply Forall_app. split; [|exact Hc].
      eapply Forall_impl; [|exact Hd]. now intros x ->.
    + destruct b as [|x b]; [congruence|]. inversion Hd; subst.
      apply in_or_app. right. now left.
  - intros [Hall Hin]. apply in_split in Hin. destruct Hin as (a & c & ->).
    apply Forall_app in Hall. destruct Hall as [Ha Hc].
    inversion Hc as [|? ? _ Hc']; subst.
    exists a, [DASH], c. repeat split; auto. discriminate.
Qed.

(** A separator, piece by piece. *)
Lemma separator_pieces line :
  is_separator_line line = true <->
  exists inner segs,
    outer_pipes_stripped (strip line) inner /\
    split_at_unescaped_pipes inner segs /\
    Forall (fun seg => strip seg = [] \/ sep_shape (strip seg)) segs.
Proof.
  rewrite is_separator_unfold.
  assert (Hall : forall segs,
    forallb (fun seg => match strip seg with
                        | [] => true
                        | _ :: _ => re_fullmatch SEP_PATTERN (strip seg)
                        end) segs = true <->
    Forall (fun seg => strip seg = [] \/ sep_shape (strip seg)) segs).
  { intros segs. rewrite forallb_forall, Forall_forall.
    split; intros H seg Hin; specialize (H seg Hin).
    - destruct (strip seg) eqn:E; [now left|]. right.
      now apply re_fullmatch_sep.
    - destruct (strip seg) eqn:E; [reflexivity|].
      destruct H as [H | H]; [discriminate|]. now apply re_fullmatch_sep. }
  split.
  - intros H. apply andb_true_iff in H. destruct H as [Hp Hf].
    apply pipe_delimited_spec in Hp.
    exists (slice (strip line) 1 (-1)),
           (split_unescaped_pipes (slice (strip line) 1 (-1))).
    split; [now apply pipe_delimited_inner|].
    split; [now apply split_unescaped_pipes_spec | now apply Hall].
  - intros (inner & segs & Ho & Hsp & Hf).
    apply outer_pipes_stripped_inv in Ho. destruct Ho as [Hp <-].
    apply pipe_delimited_spec in Hp. rewrite Hp. simpl.
    apply split_unescaped_pipes_spec in Hsp. rewrite Hsp. now apply Hall.
Qed.

(** X10: the separator test looks at the characters of a piece, not at
    their order: a line is a separator exactly when it is pipe-delimited
    and every piece between its unescaped pipes, trimmed, is empty or is
    made of colons, whitespace and dashes with at least one dash;
    colons may stand anywhere. *)
Theorem separator_by_characters (line : str) :
  is_separator_line line = true <->
  exists inner segs,
    outer_pipes_stripped (strip line) inner /\
    split_at_unescaped_pipes inner segs /\
    Forall (fun seg => strip seg = [] \/ dash_cell (strip seg)) segs.
Proof.
  rewrite separator_pieces.
  split; intros (inner & segs & Ho & Hsp & Hf); exists inner, segs;
    (split; [exact Ho|]; split; [exact Hsp|]);
    (eapply Forall_impl; [|exact Hf]); intros seg [H | H]; auto;
    right; now apply sep_shape_dash_cell.
Qed.

Lemma separator_by_characters_witness :
  is_separator_line (pystr "| -:- | : - |") = true.
Proof.
  apply (proj2 (separator_by_characters (pystr "| -:- | : - |"))).
  exists (pystr " -:- | : - "), [pystr " -:- "; pystr " : - "].
  split; [now right|]. split.
  - apply split_unescaped_pipes_spec. vm_compute. reflexivity.
  - repeat constructor; right; split;
      try (vm_compute; intuition discriminate);
      repeat constructor.
Defined.

Lemma join_pipes_incl segs : forall seg,
  In seg segs -> incl seg (join_pipes segs).
Proof.
  induction segs as [|s segs IH]; intros seg Hin; [destruct Hin|].
  destruct segs as [|s' segs].
  - destruct Hin as [-> | []]. simpl. apply incl_refl.
  - rewrite join_pipes_cons. destruct Hin as [-> | Hin].
    + apply incl_appl, incl_refl.
    + apply incl_appr, incl_tl. now apply IH.
Qed.

Lemma split_piece_incl s segs seg :
  split_at_unescaped_pipes s segs -> In seg segs -> incl seg s.
Proof. intros (_ & <- & _) Hin. now apply join_pipes_incl. Qed.

Lemma pipes_escaped_no_pipe seg :
  pipes_escaped seg -> ~ In BACKSLASH seg -> ~ In PIPE seg.
Proof.
  intros He Hb Hin. apply in_split in Hin. destruct Hin as (a & b & ->).
  destruct (He a b eq_refl) as [a' ->]. apply Hb.
  apply in_or_app. left. apply in_or_app. right. now left.
Qed.

Lemma outer_pipes_stripped_incl t inner :
  outer_pipes_stripped t inner -> incl inner t.
Proof.
  intros [[-> ->] | ->]; [apply incl_nil_l|].
  apply incl_tl, incl_appl, incl_refl.
Qed.

(** X11: a row of blank cells is a separator: a pipe-delimited line with
    nothing but pipes and whitespace passes the separator test without
    any dash, so right after a header it is taken as the separator and
    the extraction succeeds. *)
Theorem blank_row_is_separator :
  (forall line,
     pipe_delimited (strip line) ->
     Forall (fun c => c = PIPE \/ isspace c = true) (strip line) ->
     is_separator_line line = true) /\
  (forall h hcells blank rest,
     row_cells h hcells ->
     pipe_delimited (strip blank) ->
     Forall (fun c => c = PIPE \/ isspace c = true) (strip blank) ->
     res_success (parse_markdown_table (h :: blank :: rest)) = true /\
     res_headers (parse_markdown_table (h :: blank :: rest)) = hcells /\
     res_rows (parse_markdown_table (h :: blank :: rest)) = leading_rows rest).
Proof.
  assert (G : forall line,
     pipe_delimited (strip line) ->
     Forall (fun c => c = PIPE \/ isspace c = true) (strip line) ->
     is_separator_line line = true).
  { intros line Hp Hall. apply separator_pieces.
    pose proof (pipe_delimited_inner _ Hp) as Ho.
    exists (slice (strip line) 1 (-1)),
           (split_unescaped_pipes (slice (strip line) 1 (-1))).
    split; [exact Ho|].
    assert (Hsp : split_at_unescaped_pipes (slice (strip line) 1 (-1))
                    (split_unescaped_pipes (slice (strip line) 1 (-1))))
      by now apply split_unescaped_pipes_spec.
    split; [exact Hsp|].
    apply Forall_forall. intros seg Hin. left. apply strip_all_space.
    assert (Hseg : forall c, In c seg -> c = PIPE \/ isspace c = true).
    { intros c Hc. apply (proj1 (Forall_forall _ _) Hall).
      apply (outer_pipes_stripped_incl _ _ Ho).
      now apply (split_piece_incl _ _ _ Hsp Hin). }
    assert (Hnp : ~ In PIPE seg).
    { apply pipes_escaped_no_pipe.
      - destruct Hsp as (_ & _ & He & _).
        now apply (proj1 (Forall_forall _ _) He).
      - intros Hb. destruct (Hseg _ Hb); discriminate. }
    apply Forall_forall. intros c Hc.
    destruct (Hseg c Hc) as [-> | H]; [contradiction | exact H]. }
  split; [exact G|].
  intros h hcells blank rest Hh Hp Hall.
  pose proof (parse_header_then_separator [] h hcells [] blank rest
                (Forall_nil _) Hh (Forall_nil _) (G blank Hp Hall)) as E.
  cbn [app] in E. rewrite E. repeat split.
Qed.

Lemma blank_row_is_separator_witness :
  is_separator_line (pystr " |  | |") = true.
Proof.
  apply (proj1 blank_row_is_separator).
  - split; [exists (pystr "  | |") | exists (pystr "|  | ")]; reflexivity.
  - vm_compute.
    repeat (apply Forall_cons; [first [now left | now right]|]).
    apply Forall_nil.
Defined.




End RowsMore.

(** ** Counting cells, and the annotator's lengths *)

Section CellsMore.

Lemma split_from_length s : forall prev,
  ~ In BACKSLASH s -> prev <> Some BACKSLASH ->
  length (split_from prev s) = S (count_occ N.eq_dec s PIPE).
Proof.
  induction s as [|c s IH]; intros prev Hb Hp; [reflexivity|].
  assert (Hc : c <> BACKSLASH) by (intros ->; apply Hb; now left).
  assert (Hs : ~ In BACKSLASH s) by (intros H; apply Hb; now right).
  simpl. destruct (N.eq_dec c PIPE) as [->|Hne].
  - assert (Hu : unescaped_pipe prev PIPE = true)
      by now apply unescaped_pipe_true.
    rewrite Hu. simpl. f_equal. apply IH; [assumption | discriminate].
  - assert (Hu : unescaped_pipe prev c = false).
    { destruct (unescaped_pipe prev c) eqn:E; [|reflexivity].
      apply unescaped_pipe_true in E. now destruct E. }
    rewrite Hu.
    assert (Hl : length (split_from (Some c) s) = S (count_occ N.eq_dec s PIPE))
      by (apply IH; [assumption | congruence]).
    destruct (split_from (Some c) s); simpl in *; [discriminate | exact Hl].
Qed.

(** The substitution of the tags brings in newlines only. *)
Lemma br_subst_chars s out :
  br_subst s out -> forall c, In c out -> c = NEWLINE \/ In c s.
Proof.
  induction 1 as [|t rest out Ht _ IH|x rest out _ _ IH]; intros c Hin.
  - destruct Hin.
  - destruct Hin as [<- | Hin]; [now left|].
    destruct (IH c Hin) as [-> | H]; [now left | right].
    apply in_or_app. now right.
  - destruct Hin as [<- | Hin]; [right; now left|].
    destruct (IH c Hin) as [-> | H]; [now left | right; now right].
Qed.

Lemma preprocess_chars s c :
  In c (preprocess_cell_content (Some s)) -> c = NEWLINE \/ In c s.
Proof.
  unfold preprocess_cell_content. intros Hin. apply strip_incl in Hin.
  exact (br_subst_chars _ _ (re_sub_br_subst s) c Hin).
Qed.

(** X13: without backslashes every pipe separates: when a line holds no
    backslash, it has one cell more than there are pipes between its
    outer pipes, and no cell holds a pipe. *)
Theorem cells_without_escapes (line inner : str) (cells : list str) :
  ~ In BACKSLASH line ->
  outer_pipes_stripped (strip line) inner ->
  row_cells line cells ->
  length cells = S (count_occ N.eq_dec inner PIPE) /\
  Forall (fun c => ~ In PIPE c) cells.
Proof.
  intros Hb Ho Hc.
  assert (Hbi : ~ In BACKSLASH inner).
  { intros H. apply Hb, strip_incl.
    now apply (outer_pipes_stripped_incl _ _ Ho). }
  apply outer_pipes_stripped_inv in Ho. destruct Ho as [Hp Hs].
  apply pipe_delimited_spec in Hp.
  unfold row_cells in Hc. rewrite parse_line_unfold, Hp, Hs in Hc.
  injection Hc as <-. split.
  - rewrite length_map. unfold split_unescaped_pipes.
    apply split_from_length; [assumption | discriminate].
  - assert (Hsp : split_at_unescaped_pipes inner (split_unescaped_pipes inner))
      by now apply split_unescaped_pipes_spec.
    apply Forall_forall. intros c Hin. apply in_map_iff in Hin.
    destruct Hin as (seg & <- & Hin).
    assert (Hbs : ~ In BACKSLASH seg).
    { intros H. apply Hbi. now apply (split_piece_incl _ _ _ Hsp Hin). }
    assert (Hps : ~ In PIPE seg).
    { apply pipes_escaped_no_pipe; [|assumption].
      destruct Hsp as (_ & _ & He & _).
      now apply (proj1 (Forall_forall _ _) He). }
    assert (Hbt : ~ In BACKSLASH (strip seg))
      by (intros H; apply Hbs; now apply strip_incl).
    unfold unescape_markdown_cell.
    rewrite (str_replace_absent BACKSLASH [PIPE]) by assumption.
    rewrite (str_replace_absent BACKSLASH [BACKSLASH]) by assumption.
    intros H. apply preprocess_chars in H.
    destruct H as [H | H]; [discriminate|].
    apply Hps. now apply strip_incl.
Qed.

Lemma cells_without_escapes_witness :
  length [pystr "a"; EMPTY; pystr "b"] = 3 /\
  Forall (fun c => ~ In PIPE c) [pystr "a"; EMPTY; pystr "b"].
Proof.
  apply (cells_without_escapes (pystr " | a || b |") (pystr " a || b ")).
  - vm_compute. intuition discriminate.
  - right. vm_compute. reflexivity.
  - vm_compute. reflexivity.
Defined.

Lemma strip_length s : length (strip s) <= length s.
Proof.
  destruct (strip_spec s) as (l & r & E & _).
  rewrite E at 2. rewrite !length_app. lia.
Qed.

(** X14: the annotator never lengthens a text and takes at least the two
    marker characters off a styled one; it leaves alone every text of at
    most two characters and every text that does not start with an
    asterisk or an underscore. *)
Theorem annotator_lengths :
  (forall value,
     length (fst (apply_cell_formatting value)) <= length value) /\
  (forall value font,
     snd (apply_cell_formatting value) = Some font ->
     length (fst (apply_cell_formatting value)) + 2 <= length value) /\
  (forall value,
     length value <= 2 -> apply_cell_formatting value = (value, None)) /\
  (forall value,
     (forall c r, value = c :: r -> c <> STAR /\ c <> UNDERSCORE) ->
     apply_cell_formatting value = (value, None)).
Proof.
  assert (G : forall value font,
     snd (apply_cell_formatting value) = Some font ->
     length (fst (apply_cell_formatting value)) + 2 <= length value).
  { intros value font. unfold apply_cell_formatting.
    destruct (startswith [STAR; STAR] value && endswith [STAR; STAR] value
              && (4 <? length value)) eqn:Eb.
    - intros _. apply bold_test in Eb. destruct Eb as (Hs & He & Hl).
      destruct (wrapped_decompose [STAR; STAR] [STAR; STAR] value Hs He)
        as [mid E]; [simpl; lia|].
      assert (Hm : slice ([STAR; STAR] ++ mid ++ [STAR; STAR]) 2 (-2) = mid)
        by (apply (slice_middle [STAR; STAR] mid [STAR; STAR]); discriminate).
      rewrite E. rewrite Hm. cbn [fst].
      pose proof (strip_length mid). rewrite !length_app. simpl. lia.
    - destruct ((startswith [STAR] value && endswith [STAR] value
                 || startswith [UNDERSCORE] value && endswith [UNDERSCORE] value)
                && (2 <? length value)) eqn:Ei; [|discriminate].
      intros _. apply italic_test in Ei.
      destruct Ei as [[[Hs He] | [Hs He]] Hl].
      + destruct (wrapped_decompose [STAR] [STAR] value Hs He)
          as [mid E]; [simpl; lia|].
        assert (Hm : slice ([STAR] ++ mid ++ [STAR]) 1 (-1) = mid)
          by (apply (slice_middle [STAR] mid [STAR]); discriminate).
        rewrite E. rewrite Hm. cbn [fst].
        pose proof (strip_length mid). rewrite !length_app. simpl. lia.
      + destruct (wrapped_decompose [UNDERSCORE] [UNDERSCORE] value Hs He)
          as [mid E]; [simpl; lia|].
        assert (Hm : slice ([UNDERSCORE] ++ mid ++ [UNDERSCORE]) 1 (-1) = mid)
          by (apply (slice_middle [UNDERSCORE] mid [UNDERSCORE]); discriminate).
        rewrite E. rewrite Hm. cbn [fst].
        pose proof (strip_length mid). rewrite !length_app. simpl. lia. }
  split; [|split; [exact G|split]].
  - intros value. destruct (snd (apply_cell_formatting value)) as [f|] eqn:E.
    + pose proof (G value f E). lia.
    + revert E. unfold apply_cell_formatting.
      destruct (_ && _ && _); [discriminate|].
      destruct ((_ || _) && _); [discriminate|]. intros _. simpl. lia.
  - intros value Hl. unfold apply_cell_formatting.
    replace (4 <? length value) with false
      by (symmetry; apply Nat.ltb_ge; lia).
    replace (2 <? length value) with false
      by (symmetry; apply Nat.ltb_ge; lia).
    now rewrite !andb_false_r.
  - intros value H. unfold apply_cell_formatting.
    destruct value as [|c r]; [reflexivity|].
    destruct (H c r eq_refl) as [H1 H2].
    cbn [startswith].
    replace (STAR =? c)%N with false by (symmetry; apply N.eqb_neq; congruence).
    replace (UNDERSCORE =? c)%N with false
      by (symmetry; apply N.eqb_neq; congruence).
    reflexivity.
Qed.

Lemma annotator_lengths_witness :
  length (fst (apply_cell_formatting (pystr "** a **"))) + 2
  <= length (pystr "** a **").
Proof.
  apply (proj1 (proj2 annotator_lengths) (pystr "** a **") BOLD).
  vm_compute. reflexivity.
Defined.

End CellsMore.

(** ** An escaped backslash before a delimiter *)

Section EscapedBackslash.

Lemma replace_from_prefix a old new x : forall rest,
  ~ In a x ->
  replace_from (a :: old) new 0 (x ++ rest)
  = x ++ replace_from (a :: old) new 0 rest.
Proof.
  induction x as [|c x IH]; intros rest H; [reflexivity|].
  simpl app. cbn [replace_from startswith].
  replace (a =? c)%N with false
    by (symmetry; apply N.eqb_neq; intros ->; apply H; now left).
  cbn [andb]. f_equal. apply IH. intros Hin. apply H. now right.
Qed.

Lemma no_space_no_outer_space t :
  Forall (fun c => isspace c = false) t -> no_outer_space t.
Proof.
  intros H. split; intros c r E; apply (proj1 (Forall_forall _ _) H); subst.
  - now left.
  - apply in_or_app. right. now left.
Qed.

Lemma simple_text_facts s :
  simple_text s ->
  ~ In PIPE s /\ ~ In BACKSLASH s /\ ~ In LT s /\
  Forall (fun c => isspace c = false) s.
Proof.
  intros H. repeat split.
  - intros Hin. now destruct (proj1 (Forall_forall _ _) H _ Hin) as (? & _).
  - intros Hin. now destruct (proj1 (Forall_forall _ _) H _ Hin) as (_ & ? & _).
  - intros Hin. now destruct (proj1 (Forall_forall _ _) H _ Hin) as (_ & _ & ? & _).
  - eapply Forall_impl; [|exact H]. now intros c (_ & _ & _ & ?).
Qed.

(** The one pipe of the piece comes after a backslash. *)
Lemma merged_piece_escaped x y :
  ~ In PIPE x -> ~ In PIPE y ->
  pipes_escaped (x ++ [BACKSLASH; BACKSLASH; PIPE] ++ y).
Proof.
  intros Hx Hy. induction x as [|c x IH]; intros a b E.
  - simpl in E. destruct a as [|a1 [|a2 [|a3 a]]]; simpl in E; try discriminate.
    + injection E as <- <- _. now exists [BACKSLASH].
    + injection E as _ _ _ E. exfalso. apply Hy. rewrite E.
      apply in_or_app. right. now left.
  - destruct a as [|a1 a]; simpl in E.
    + injection E as -> _. exfalso. apply Hx. now left.
    + injection E as <- E. apply ends_with_backslash_cons. right.
      apply (IH (fun H => Hx (or_intror H)) a b E).
Qed.

(** X15: an escaped backslash right before a delimiter hides it: for
    texts [x] and [y] without pipe, backslash, [<] and whitespace, the
    line made of a pipe, [x], two backslashes, a pipe, [y] and a pipe is
    tokenized into one cell, [x], a backslash, a pipe and [y], and not
    into the two cells [x] with a backslash and [y]. *)
Theorem escaped_backslash_hides_delimiter (x y : str) :
  simple_text x -> simple_text y ->
  parse_markdown_table_line
    (PIPE :: (x ++ [BACKSLASH; BACKSLASH; PIPE] ++ y) ++ [PIPE])
  = Some [x ++ [BACKSLASH; PIPE] ++ y].
Proof.
  intros Hx Hy.
  destruct (simple_text_facts x Hx) as (Hxp & Hxb & Hxl & Hxs).
  destruct (simple_text_facts y Hy) as (Hyp & Hyb & Hyl & Hys).
  set (piece := x ++ [BACKSLASH; BACKSLASH; PIPE] ++ y).
  rewrite parse_line_unfold.
  assert (Hline : no_outer_space (PIPE :: piece ++ [PIPE])).
  { split.
    - intros c r E. now injection E as <- _.
    - intros c r E.
      change (PIPE :: piece ++ [PIPE]) with ((PIPE :: piece) ++ [PIPE]) in E.
      apply app_inj_tail in E. now destruct E as [_ <-]. }
  rewrite (strip_id _ Hline).
  assert (Ho : outer_pipes_stripped (PIPE :: piece ++ [PIPE]) piece) by now right.
  apply outer_pipes_stripped_inv in Ho. destruct Ho as [Hp Hs].
  apply pipe_delimited_spec in Hp. rewrite Hp, Hs.
  assert (Hsplit : split_unescaped_pipes piece = [piece]).
  { apply split_unescaped_pipes_spec. repeat split.
    - discriminate.
    - constructor; [|constructor]. now apply merged_piece_escaped.
    - constructor. }
  rewrite Hsplit. cbn [map]. do 2 f_equal.
  assert (Hpiece : no_outer_space piece).
  { apply no_space_no_outer_space. unfold piece.
    apply Forall_app. split; [exact Hxs|].
    apply Forall_app. split; [repeat constructor | exact Hys]. }
  rewrite (strip_id _ Hpiece). unfold piece, unescape_markdown_cell, str_replace.
  rewrite (replace_from_prefix BACKSLASH [PIPE] [PIPE] x) by assumption.
  assert (E1 : replace_from [BACKSLASH; PIPE] [PIPE] 0
                 ([BACKSLASH; BACKSLASH; PIPE] ++ y)
               = BACKSLASH :: PIPE :: y).
  { simpl. do 2 f_equal.
    apply (str_replace_absent BACKSLASH [PIPE] [PIPE] y Hyb). }
  rewrite E1.
  rewrite (replace_from_prefix BACKSLASH [BACKSLASH] [BACKSLASH] x) by assumption.
  assert (E2 : replace_from [BACKSLASH; BACKSLASH] [BACKSLASH] 0
                 (BACKSLASH :: PIPE :: y)
               = BACKSLASH :: PIPE :: y).
  { simpl. do 2 f_equal.
    apply (str_replace_absent BACKSLASH [BACKSLASH] [BACKSLASH] y Hyb). }
  rewrite E2. unfold preprocess_cell_content.
  rewrite re_sub_br_id.
  - apply strip_id. apply no_space_no_outer_space.
    apply Forall_app. split; [exact Hxs|].
    constructor; [reflexivity|]. constructor; [reflexivity | exact Hys].
  - apply no_lt_no_br_tag. intros Hin. apply in_app_or in Hin.
    destruct Hin as [Hin | [Hin | [Hin | Hin]]];
      [now apply Hxl | discriminate | discriminate | now apply Hyl].
Qed.

Lemma escaped_backslash_hides_delimiter_witness :
  parse_markdown_table_line (pystr "|C:\\|D:|") = Some [pystr "C:\|D:"].
Proof.
  apply (escaped_backslash_hides_delimiter (pystr "C:") (pystr "D:"));
    repeat constructor; discriminate.
Defined.

End EscapedBackslash.

(** ** The width warnings *)

Section Warnings.

Lemma row_messages_warning expected body : forall i n a e,
  In (WarnRowWidth n a e) (row_messages i expected body) ->
  e = expected /\ a <> e /\
  exists k line cells,
    n = i + k + 1 /\ nth_error body k = Some line /\
    row_cells line cells /\ length cells = a.
Proof.
  induction body as [|l body IH]; intros i n a e Hin; simpl in Hin.
  - destruct Hin.
  - destruct (parse_markdown_table_line l) as [cells|] eqn:El.
    + apply in_app_or in Hin. destruct Hin as [Hin | Hin].
      * destruct (Nat.eqb_spec (length cells) expected) as [Heq|Hne];
          simpl in Hin; [destruct Hin|].
        destruct Hin as [Hin | []]. injection Hin as <- <- <-.
        split; [reflexivity|]. split; [exact Hne|].
        exists 0, l, cells. repeat split; [lia | exact El].
      * destruct (IH (S i) n a e Hin) as (He & Hne & k & line & c & -> & Hk & Hc & Hl).
        split; [exact He|]. split; [exact Hne|].
        exists (S k), line, c. repeat split; [lia | assumption..].
    + destruct Hin as [Hin | []]. discriminate.
Qed.

(** X16: a width warning is printed only for a data row whose number of
    cells differs from the header's: every such warning names the
    1-based number of an input line that is a row, the number of cells
    of that row, and the number of headers, and the two numbers differ. *)
Theorem width_warnings_exact (lines : list str) (n a e : nat) :
  In (WarnRowWidth n a e) (res_printed (parse_markdown_table lines)) ->
  e = length (res_headers (parse_markdown_table lines)) /\ a <> e /\
  1 <= n /\
  exists line cells,
    nth_error lines (n - 1) = Some line /\
    row_cells line cells /\ length cells = a.
Proof.
  destruct (parse_extracts lines)
    as [lines H | p h cells mid Hp Hh Hmid
        | p h hcells mid r rcells rest Hp Hh Hmid Hr Hs
        | p h hcells mid sep rest Hp Hh Hmid Hs];
    cbn [res_printed res_headers]; intros Hin;
    try (simpl in Hin; exfalso; intuition discriminate).
  apply in_app_or in Hin. destruct Hin as [Hin | Hin];
    [simpl in Hin; exfalso; intuition discriminate|].
  apply in_app_or in Hin. destruct Hin as [Hin | Hin].
  - apply row_messages_warning in Hin.
    destruct Hin as (He & Hne & k & line & c & -> & Hk & Hc & Hl).
    split; [exact He|]. split; [exact Hne|]. split; [lia|].
    exists line, c. repeat split; [|assumption..].
    replace (length p + length mid + 2 + k + 1 - 1)
      with (length p + length mid + 2 + k) by lia.
    now apply nth_error_middle.
  - destruct (leading_rows rest); simpl in Hin; exfalso; intuition discriminate.
Qed.

Lemma width_warnings_exact_witness :
  1 = length (res_headers (parse_markdown_table wide_row_lines)) /\ 2 <> 1 /\
  1 <= 3 /\
  exists line cells,
    nth_error wide_row_lines (3 - 1) = Some line /\
    row_cells line cells /\ length cells = 2.
Proof.
  apply (width_warnings_exact wide_row_lines 3 2 1).
  vm_compute. auto.
Defined.

End Warnings.
